(** * Task manager: task store, HTTP contract and client cache layer

    A shallow embedding of the task manager's backend (Express + Zod, an
    in-memory task list) and of the frontend's React Query hooks, with the
    properties of the synchronisation layer and of the CRUD contract.

    The program:
    - [Json]      : request bodies as the JSON values Express hands over;
    - [Types]     : backend/src/types/task.ts (the Zod schemas);
    - [Service]   : backend/src/services/taskService.ts (the store);
    - [Controller]: the task controller (request handlers);
    - [Server]    : routes/taskRoutes.ts, the middleware and server.ts;
    - [Api]       : frontend/src/services/taskApi.ts (requests and errors);
    - [Hooks]     : the React Query hooks (cache, optimistic updates, rollback);
    - [TaskItem]  : the save path of an edited task;
    - [Wire]      : [fetch] against this server;
    - [Queries]   : the tasks query (retry delay, the fetch of the list).

    The properties:
    - [Scenario], [Ops], [Paths], [Protocol], [Requests]: instances and
      vocabulary;
    - [StoreFacts] : delete, status update, uniqueness of ids;
    - [HttpFacts]  : routing, validation, full update;
    - [ClientFacts]: rollback, revalidation, create, toggle;
    - [EndToEnd]   : the client in front of the server;
    - [StoreLaws]  : lookups, composition of the store's operations;
    - [HttpLaws]   : the schemas, refusals, stores reached by requests;
    - [ClientLaws] : retry delay, optimistic predictions, attempts;
    - [WireLaws]   : create, toggle, delete, save and refetch end to end. *)

From Stdlib Require Import Ascii String.
From stdpp Require Import base tactics option strings list numbers pretty.

Set Warnings "-register-all".

Local Open Scope string_scope.
Local Open Scope N_scope.
Local Open Scope list_scope.

(** ** JSON values *)

Module Json.

(** A parsed JSON value, as [express.json()] leaves it in [req.body].  An
    object is kept as its list of members in source order; numbers are
    only ever tested for not being strings, so an integer stands for them. *)
Inductive json : Type :=
  | JNull
  | JBool (b : bool)
  | JNum (n : Z)
  | JStr (s : string)
  | JArr (l : list json)
  | JObj (o : list (string * json)).

(** Property read [o[k]]: [JSON.parse] keeps the last of duplicated keys. *)
Fixpoint obj_get (k : string) (o : list (string * json)) : option json :=
  match o with
  | [] => None
  | (k', v) :: o' =>
      match obj_get k o' with
      | Some w => Some w
      | None => if decide (k = k') then Some v else None
      end
  end.

End Json.
Import Json.

(** ** backend/src/types/task.ts *)

Module Types.

(** [z.enum(['pending', 'done'])] *)
Inductive Status : Type := Pending | Done.

#[global] Instance Status_eq_dec : EqDecision Status.
Proof. solve_decision. Defined.

(** The string of a status value on the wire. *)
Definition status_string (st : Status) : string :=
  match st with Pending => "pending" | Done => "done" end.

(** [Task = z.infer<typeof TaskSchema>] *)
Record Task : Type := mkTask {
  task_id : string;
  title : string;
  description : string;
  status : Status
}.

#[global] Instance Task_eq_dec : EqDecision Task.
Proof. solve_decision. Defined.

(** [CreateTask = z.infer<typeof CreateTaskSchema>]: the output of the
    parse, where [status] has been defaulted and unknown keys stripped. *)
Record CreateTask : Type := mkCreateTask {
  ct_title : string;
  ct_description : string;
  ct_status : Status
}.

(** [UpdateTask = z.infer<typeof UpdateTaskSchema>] *)
Record UpdateTask : Type := mkUpdateTask {
  ut_status : Status
}.

(** Zod issue codes the three schemas can raise. *)
Inductive IssueCode : Type := invalid_type | too_small | invalid_value.

(** One entry of [ZodError.issues]: the failing field and the reason. *)
Record Issue : Type := mkIssue {
  issue_path : list string;
  issue_code : IssueCode
}.

(** Result of [schema.parse]: the parsed value, or the thrown [ZodError]
    with its issues. *)
Inductive Parsed (A : Type) : Type :=
  | ParseOk (a : A)
  | ZodError (issues : list Issue).
Arguments ParseOk {A} a.
Arguments ZodError {A} issues.

(** [z.string().min(1)] applied to the member [field] ([None] when the key
    is absent, i.e. the value is [undefined]). *)
Definition parse_string_min1 (field : string) (v : option json) : Parsed string :=
  match v with
  | Some (JStr s) =>
      if decide (String.length s = 0%nat)
      then ZodError [mkIssue [field] too_small]
      else ParseOk s
  | _ => ZodError [mkIssue [field] invalid_type]
  end.

(** [z.enum(['pending', 'done'])] *)
Definition parse_status (field : string) (v : option json) : Parsed Status :=
  match v with
  | Some (JStr s) =>
      if decide (s = "pending") then ParseOk Pending
      else if decide (s = "done") then ParseOk Done
      else ZodError [mkIssue [field] invalid_value]
  | _ => ZodError [mkIssue [field] invalid_type]
  end.

(** [z.enum(['pending', 'done']).default('pending')]: the default is taken
    exactly when the input is [undefined]. *)
Definition parse_status_default (field : string) (v : option json) : Parsed Status :=
  match v with
  | None => ParseOk Pending
  | Some _ => parse_status field v
  end.

Definition issues_of {A} (p : Parsed A) : list Issue :=
  match p with ParseOk _ => [] | ZodError il => il end.

(** [CreateTaskSchema.parse(body)]: a [z.object] checks every member and
    reports the issues of all of them together. *)
Definition CreateTaskSchema_parse (body : json) : Parsed CreateTask :=
  match body with
  | JObj o =>
      let pt := parse_string_min1 "title" (obj_get "title" o) in
      let pd := parse_string_min1 "description" (obj_get "description" o) in
      let ps := parse_status_default "status" (obj_get "status" o) in
      match pt, pd, ps with
      | ParseOk t, ParseOk d, ParseOk s => ParseOk (mkCreateTask t d s)
      | _, _, _ => ZodError (issues_of pt ++ issues_of pd ++ issues_of ps)
      end
  | _ => ZodError [mkIssue [] invalid_type]
  end.

(** [UpdateTaskSchema.parse(body)] *)
Definition UpdateTaskSchema_parse (body : json) : Parsed UpdateTask :=
  match body with
  | JObj o =>
      match parse_status "status" (obj_get "status" o) with
      | ParseOk s => ParseOk (mkUpdateTask s)
      | ZodError il => ZodError il
      end
  | _ => ZodError [mkIssue [] invalid_type]
  end.

End Types.
Import Types.

(** ** backend/src/services/taskService.ts *)

Module Service.

(** The fields of the [TaskService] singleton.  [nextId] is a JavaScript
    number holding a non-negative integer; [++] and [toString] are exact
    on integers below 2^53, a count of creations no process reaches, and
    the counter is kept as an unbounded natural number. *)
Record Store : Type := mkStore {
  tasks : list Task;
  nextId : N
}.

(** The store as the class initialises it. *)
Definition initial : Store :=
  mkStore [mkTask "1" "Sample Task" "This is a sample task" Pending] 2.

(** [Number.prototype.toString] on a non-negative integer: its decimal
    digits. *)
Definition toString (n : N) : string := pretty n.

(** [this.tasks.findIndex(task => task.id === id)], with the task found;
    [None] stands for [-1]. *)
Definition findIndex (id : string) (l : list Task) : option (nat * Task) :=
  list_find (λ t, task_id t = id) l.

Definition getAllTasks (s : Store) : list Task := tasks s.

Definition getTaskById (id : string) (s : Store) : option Task :=
  snd <$> findIndex id (tasks s).

(** [{ id: this.nextId.toString(), ...taskData }] *)
Definition createTask (taskData : CreateTask) (s : Store) : Task * Store :=
  let newTask :=
    mkTask (toString (nextId s)) (ct_title taskData)
           (ct_description taskData) (ct_status taskData) in
  (newTask, mkStore (tasks s ++ [newTask]) (nextId s + 1)).

(** [this.tasks.splice(taskIndex, 1)] *)
Definition deleteTask (id : string) (s : Store) : bool * Store :=
  match findIndex id (tasks s) with
  | None => (false, s)
  | Some (taskIndex, _) => (true, mkStore (delete taskIndex (tasks s)) (nextId s))
  end.

(** [{ ...this.tasks[taskIndex], ...updateData }] with [updateData : UpdateTask] *)
Definition merge_status (t : Task) (updateData : UpdateTask) : Task :=
  mkTask (task_id t) (title t) (description t) (ut_status updateData).

(** [{ ...this.tasks[taskIndex], ...updateData }] with [updateData : CreateTask] *)
Definition merge_all (t : Task) (updateData : CreateTask) : Task :=
  mkTask (task_id t) (ct_title updateData) (ct_description updateData)
         (ct_status updateData).

Definition updateTaskStatus (id : string) (updateData : UpdateTask) (s : Store)
  : option Task * Store :=
  match findIndex id (tasks s) with
  | None => (None, s)
  | Some (taskIndex, t) =>
      let t' := merge_status t updateData in
      (Some t', mkStore (<[taskIndex := t']> (tasks s)) (nextId s))
  end.

Definition updateTask (id : string) (updateData : CreateTask) (s : Store)
  : option Task * Store :=
  match findIndex id (tasks s) with
  | None => (None, s)
  | Some (taskIndex, t) =>
      let t' := merge_all t updateData in
      (Some t', mkStore (<[taskIndex := t']> (tasks s)) (nextId s))
  end.

End Service.

Import Service.

(** ** The task controller (handlers of the five routes) *)

Module Controller.

(** What a handler passes to [res.json]. *)
Inductive ResBody : Type :=
  | TaskList (l : list Task)
  | OneTask (t : Task)
  | Message (message : string)
  | ErrorBody (error : string) (details : option (list Issue)).

(** [res.status(code).json(body)]; [res.json] alone answers 200. *)
Record Response : Type := mkResponse {
  res_status : N;
  res_body : ResBody
}.

Definition invalid_data (issues : list Issue) : Response :=
  mkResponse 400 (ErrorBody "Invalid data" (Some issues)).

Definition id_required : Response :=
  mkResponse 400 (ErrorBody "Task ID is required" None).

Definition task_not_found : Response :=
  mkResponse 404 (ErrorBody "Task not found" None).

(** A handler reads the request and the store, answers, and leaves a
    store.  The service never throws, so the [catch] branches that answer
    500 are reached only through a [ZodError], which answers 400. *)
Definition Handler : Type := Store → Response * Store.

Definition getAllTasks : Handler := λ s,
  (mkResponse 200 (TaskList (Service.getAllTasks s)), s).

Definition createTask (body : json) : Handler := λ s,
  match CreateTaskSchema_parse body with
  | ParseOk taskData =>
      let '(newTask, s') := Service.createTask taskData s in
      (mkResponse 201 (OneTask newTask), s')
  | ZodError issues => (invalid_data issues, s)
  end.

(** [!id] holds of the empty string only: [req.params.id] is a string. *)
Definition deleteTask (id : string) : Handler := λ s,
  if decide (id = "") then (id_required, s)
  else
    let '(deleted, s') := Service.deleteTask id s in
    if deleted then (mkResponse 200 (Message "Task deleted"), s')
    else (task_not_found, s').

Definition updateTaskStatus (id : string) (body : json) : Handler := λ s,
  if decide (id = "") then (id_required, s)
  else
    match UpdateTaskSchema_parse body with
    | ParseOk updateData =>
        match Service.updateTaskStatus id updateData s with
        | (Some updatedTask, s') => (mkResponse 200 (OneTask updatedTask), s')
        | (None, s') => (task_not_found, s')
        end
    | ZodError issues => (invalid_data issues, s)
    end.

Definition updateTask (id : string) (body : json) : Handler := λ s,
  if decide (id = "") then (id_required, s)
  else
    match CreateTaskSchema_parse body with
    | ParseOk updateData =>
        match Service.updateTask id updateData s with
        | (Some updatedTask, s') => (mkResponse 200 (OneTask updatedTask), s')
        | (None, s') => (task_not_found, s')
        end
    | ZodError issues => (invalid_data issues, s)
    end.

End Controller.

(** ** routes/taskRoutes.ts, the error middleware and server.ts *)

Module Server.

Import Controller.

Inductive Method : Type := GET | POST | DELETE | PATCH | PUT.

#[global] Instance Method_eq_dec : EqDecision Method.
Proof. solve_decision. Defined.

(** A request as it reaches the Express application: the method, the path
    of the request target (it starts with a slash; the query string is
    not part of it) and the JSON value of the body, the empty object when
    the request has no body.  Strings hold text in UTF-8. *)
Record Request : Type := mkRequest {
  req_method : Method;
  req_path : string;
  req_body : json
}.

(** [express.json()] is strict: it hands on a body that is an object or
    an array, and fails on any other JSON value. *)
Definition strict_json (body : json) : bool :=
  match body with
  | JObj _ | JArr _ => true
  | _ => false
  end.

(** The value of a hexadecimal digit. *)
Definition hex_value (c : ascii) : option N :=
  let n := N_of_ascii c in
  if decide (48 ≤ n ≤ 57) then Some (n - 48)
  else if decide (65 ≤ n ≤ 70) then Some (n - 55)
  else if decide (97 ≤ n ≤ 102) then Some (n - 87)
  else None.

(** A unit of an escaped string: a character as it is, or the byte of an
    escape [%XX]. *)
Inductive Unit : Type := Raw (c : ascii) | Escaped (b : N).

(** The units of a string; [None] when a percent sign is not followed
    by two hexadecimal digits. *)
Fixpoint escapes (s : string) : option (list Unit) :=
  match s with
  | EmptyString => Some []
  | String c s1 =>
      if decide (c = "%"%char) then
        match s1 with
        | String h (String l s2) =>
            match hex_value h, hex_value l with
            | Some a, Some b => cons (Escaped (16 * a + b)) <$> escapes s2
            | _, _ => None
            end
        | _ => None
        end
      else cons (Raw c) <$> escapes s1
  end.

(** A continuation byte of UTF-8 within the bounds its lead byte sets. *)
Definition within (lo hi b : N) : bool := bool_decide (lo ≤ b ≤ hi).

(** The text of a list of units: an escaped byte below 128 is its
    character; an escaped lead byte must be followed by the escaped
    continuation bytes of a well-formed UTF-8 sequence (no overlong form,
    no surrogate, nothing above U+10FFFF), which stand for one character;
    [None] otherwise. *)
Fixpoint unescape (us : list Unit) : option string :=
  match us with
  | [] => Some ""
  | Raw c :: r => String c <$> unescape r
  | Escaped b :: r =>
      let byte n := String (ascii_of_N n) in
      if decide (b < 128) then byte b <$> unescape r
      else if decide (194 ≤ b ≤ 223) then
        match r with
        | Escaped b1 :: r1 =>
            if within 128 191 b1
            then (byte b ∘ byte b1) <$> unescape r1 else None
        | _ => None
        end
      else if decide (224 ≤ b ≤ 239) then
        match r with
        | Escaped b1 :: Escaped b2 :: r2 =>
            if within (if decide (b = 224) then 160 else 128)
                      (if decide (b = 237) then 159 else 191) b1
               && within 128 191 b2
            then (byte b ∘ byte b1 ∘ byte b2) <$> unescape r2 else None
        | _ => None
        end
      else if decide (240 ≤ b ≤ 244) then
        match r with
        | Escaped b1 :: Escaped b2 :: Escaped b3 :: r3 =>
            if within (if decide (b = 240) then 144 else 128)
                      (if decide (b = 244) then 143 else 191) b1
               && within 128 191 b2 && within 128 191 b3
            then (byte b ∘ byte b1 ∘ byte b2 ∘ byte b3) <$> unescape r3
            else None
        | _ => None
        end
      else None
  end.

(** [decodeURIComponent]; [None] stands for the [URIError] it throws. *)
Definition decodeURIComponent (s : string) : option string :=
  escapes s ≫= unescape.

(** [s.split('/')] *)
Fixpoint split_slash (s : string) : list string :=
  match s with
  | EmptyString => [""]
  | String c s' =>
      if decide (c = "/"%char) then "" :: split_slash s'
      else match split_slash s' with
           | x :: r => String c x :: r
           | [] => [String c ""]
           end
  end.

(** The segments after the leading slash; [None] when there is none. *)
Definition segments (path : string) : option (list string) :=
  match split_slash path with
  | "" :: segs => Some segs
  | _ => None
  end.

Definition lower_char (c : ascii) : ascii :=
  let n := N_of_ascii c in
  if decide (65 ≤ n ≤ 90) then ascii_of_N (n + 32) else c.

Fixpoint lower (s : string) : string :=
  match s with
  | EmptyString => EmptyString
  | String c s' => String (lower_char c) (lower s')
  end.

(** One segment of a route path: a literal or a named parameter. *)
Inductive PSeg : Type := Lit (s : string) | Param.

(** Express matches a route path against the whole remaining path:
    literals without regard to case ([caseSensitive] is off), a parameter
    against one non-empty segment, and one trailing slash is allowed
    ([strict] is off).  The result is the list of parameter values. *)
Fixpoint match_route (pat : list PSeg) (segs : list string) : option (list string) :=
  match pat, segs with
  | [], [] => Some []
  | [], [s] => if decide (s = "") then Some [] else None
  | Lit l :: pat', s :: segs' =>
      if decide (lower l = lower s) then match_route pat' segs' else None
  | Param :: pat', s :: segs' =>
      if decide (s = "") then None
      else cons s <$> match_route pat' segs'
  | _, _ => None
  end.

(** ['/tasks'] and ['/tasks/:id'] *)
Definition tasks_path : list PSeg := [Lit "tasks"].
Definition task_path : list PSeg := [Lit "tasks"; Param].

(** What the router makes of a request: a handler to run, an error
    (Express could not decode a route parameter), or nothing, when no
    route matches and Express calls [next]. *)
Inductive Routed : Type :=
  | Handle (h : Handler)
  | DecodeFailed
  | Unrouted.

(** routes/taskRoutes.ts: the five routes, tried in the order they are
    registered.  Express matches the path of a route first, whatever the
    method, and decodes the parameters of a path that matches with
    [decodeURIComponent]; a parameter that cannot be decoded is an error
    for every method.  No path matches both ['/tasks'] and
    ['/tasks/:id']. *)
Definition router (m : Method) (segs : list string) (body : json) : Routed :=
  match match_route tasks_path segs, match_route task_path segs with
  | Some _, _ =>
      match m with
      | GET => Handle getAllTasks
      | POST => Handle (createTask body)
      | _ => Unrouted
      end
  | None, Some [raw] =>
      match decodeURIComponent raw with
      | Some id =>
          match m with
          | DELETE => Handle (deleteTask id)
          | PATCH => Handle (updateTaskStatus id body)
          | PUT => Handle (updateTask id body)
          | _ => Unrouted
          end
      | None => DecodeFailed
      end
  | _, _ => Unrouted
  end.

(** The [notFound] middleware: 404 with the requested URL in the message. *)
Definition notFound (r : Request) : Handler := λ s,
  (mkResponse 404
     (ErrorBody ("Route " +:+ req_path r +:+ " not found") None), s).

(** The [errorHandler] middleware: 500, whatever the error. *)
Definition errorHandler : Handler := λ s,
  (mkResponse 500 (ErrorBody "Something went wrong!" None), s).

(** What the application answers: a JSON response of its own, or a page
    of the Swagger UI, which is served by a library and left opaque. *)
Inductive Answer : Type :=
  | Json (r : Response)
  | SwaggerUi.

Definition answer (h : Handler) (s : Store) : Answer * Store :=
  let '(r, s') := h s in (Json r, s').

(** server.ts: the middleware chain.  [express.json()] comes first; an
    error it raises, like an error of the router, skips the middleware
    that follows and ends in [errorHandler].  [app.use(prefix, ...)]
    matches the first segment without regard to case and hands the rest
    of the path to the mounted router. *)
Definition app (r : Request) (s : Store) : Answer * Store :=
  if strict_json (req_body r) then
    match segments (req_path r) with
    | Some (first :: rest) =>
        if decide (lower first = "api-docs") then (SwaggerUi, s)
        else
          let routed :=
            if decide (lower first = "api")
            then router (req_method r) rest (req_body r)
            else Unrouted in
          match routed with
          | Handle h => answer h s
          | DecodeFailed => answer errorHandler s
          | Unrouted =>
              if decide (req_method r = GET ∧
                         match_route [Lit "health"] (first :: rest) = Some [])
              then (Json (mkResponse 200 (Message "Server is running!")), s)
              else answer (notFound r) s
          end
    | _ => answer (notFound r) s
    end
  else answer errorHandler s.

(** The HTTP status of an answer, when the application produced it. *)
Definition status_of (a : Answer) : option N :=
  match a with Json r => Some (res_status r) | SwaggerUi => None end.

End Server.

Import Controller Server.

(** ** frontend/src/services/taskApi.ts *)

Module Api.

(** The frontend's [TaskStatus] and [Task] are the backend's (the two
    tiers share the data contract). *)

(** Modelled from the spec: the declaration of [CreateTaskData] in the
    frontend's types/task.ts is missing.  Create takes a title, a
    description and a status that defaults to pending when it is not
    given. *)
Record CreateTaskData : Type := mkCreateTaskData {
  cd_title : string;
  cd_description : string;
  cd_status : option Status
}.

(** Modelled from the spec: the declaration of [UpdateTaskData] in the
    frontend's types/task.ts is missing.  An update merges fields into
    the matching record: each of the mutable fields is given or not (the
    save path gives a title and a description). *)
Record UpdateTaskData : Type := mkUpdateTaskData {
  ud_title : option string;
  ud_description : option string;
  ud_status : option Status
}.

(** What a rejected promise of the client carries: an [APIError] with the
    HTTP status (0 for a transport failure), or a plain [Error]. *)
Inductive ClientError : Type :=
  | APIError (message : string) (status : N)
  | Error (message : string).

(** A settled promise. *)
Inductive Outcome (A : Type) : Type :=
  | Fulfilled (a : A)
  | Rejected (e : ClientError).
Arguments Fulfilled {A} a.
Arguments Rejected {A} e.

(** The content of an HTTP response as [makeRequest] tells it apart. *)
Inductive Payload : Type :=
  | NoContent
  | NotJson
  | JsonBody (b : ResBody).

(** What [fetch] settles to: a rejection (no response), or a response. *)
Inductive Fetched : Type :=
  | FetchFailed
  | Got (status : N) (statusText : string) (payload : Payload).

(** Members with an [undefined] value are left out by [JSON.stringify]. *)
Definition members (l : list (string * option json)) : list (string * json) :=
  omap (λ kv, pair kv.1 <$> kv.2) l.

Definition stringify_create (d : CreateTaskData) : json :=
  JObj (members [("title", Some (JStr (cd_title d)));
                 ("description", Some (JStr (cd_description d)));
                 ("status", JStr ∘ status_string <$> cd_status d)]).

Definition stringify_update (u : UpdateTaskData) : json :=
  JObj (members [("title", JStr <$> ud_title u);
                 ("description", JStr <$> ud_description u);
                 ("status", JStr ∘ status_string <$> ud_status u)]).

Definition stringify_status (st : Status) : json :=
  JObj [("status", JStr (status_string st))].

(** The path of [API_CONFIG.BASE_URL], whose default is
    [http://localhost:3000/api]. *)
Definition base_path : string := "/api".

(** The requests the six methods of [TaskAPI] send.  A request without
    a body reaches the handlers with the empty object as [req.body].
    The id is pasted into the URL as it is. *)
Definition getTasks_request : Request :=
  mkRequest GET (base_path +:+ "/tasks") (JObj []).

Definition createTask_request (taskData : CreateTaskData) : Request :=
  mkRequest POST (base_path +:+ "/tasks") (stringify_create taskData).

Definition updateTaskStatus_request (id : string) (st : Status) : Request :=
  mkRequest PATCH (base_path +:+ "/tasks/" +:+ id) (stringify_status st).

Definition updateTask_request (id : string) (updates : UpdateTaskData) : Request :=
  mkRequest PUT (base_path +:+ "/tasks/" +:+ id) (stringify_update updates).

Definition deleteTask_request (id : string) : Request :=
  mkRequest DELETE (base_path +:+ "/tasks/" +:+ id) (JObj []).


(** [response.ok] *)
Definition ok (status : N) : bool := bool_decide (200 ≤ status ≤ 299).

(** [errorDetails?.error || `HTTP ${status}: ${statusText}`] *)
Definition error_message (status : N) (statusText : string) (p : Payload) : string :=
  let http := "HTTP " +:+ pretty status +:+ ": " +:+ statusText in
  match p with
  | JsonBody (ErrorBody e _) => if decide (e = "") then http else e
  | _ => http
  end.

(** [makeRequest], from the settled [fetch] on: the data of the response
    ([None] for [undefined]), or the [APIError] thrown. *)
Definition makeRequest_result (f : Fetched) : Outcome (option ResBody) :=
  match f with
  | FetchFailed => Rejected (APIError "Network error occurred" 0)
  | Got status statusText p =>
      if ok status then
        match p with
        | NoContent => Fulfilled None
        | JsonBody b =>
            if decide (status = 204) then Fulfilled None else Fulfilled (Some b)
        | NotJson =>
            if decide (status = 204) then Fulfilled None
            else Rejected (APIError "Network error occurred" 0)
        end
      else Rejected (APIError (error_message status statusText p) status)
  end.

End Api.

Import Api.

(** ** The React Query hooks (hooks/useTasksQuery, providers/QueryProvider) *)

Module Hooks.

(** What the hooks do to the outside, in the order they do it. *)
Inductive Effect : Type :=
  | CancelQueries
  | InvalidateQueries
  | Sent (r : Request).

Section Client.

(** The world beyond [fetch]: a server, a network, anything; [fetch]
    answers a request and moves the world on. *)
Context {W : Type}.
Variable fetch : Request → W → Fetched * W.

(** [validateTask] of the frontend's types/task.ts, a parameter here:
    the task it accepts, or the message of its error.  It is given the
    data of the response ([None] for [undefined]). *)
Variable validateTask : option ResBody → string + Task.

(** The state the hooks run in: the data cached under [QUERY_KEYS.TASKS]
    ([None] for [undefined], before the first fetch), the effects so far
    (oldest first), and the world. *)
Record State : Type := mkState {
  cache : option (list Task);
  trace : list Effect;
  world : W
}.

(** An [async] function: it settles to a value or to a rejection, and
    leaves a state. *)
Definition M (A : Type) : Type := State → Outcome A * State.

Definition ret {A} (a : A) : M A := λ st, (Fulfilled a, st).

Definition throw {A} (e : ClientError) : M A := λ st, (Rejected e, st).

Definition bind {A B} (m : M A) (k : A → M B) : M B := λ st,
  match m st with
  | (Fulfilled a, st') => k a st'
  | (Rejected e, st') => (Rejected e, st')
  end.

Notation "'do' x ← m ; k" := (bind m (λ x, k))
  (at level 10, x name, m at level 100, k at level 200,
   format "'[v' 'do'  x  ←  m ; '/' k ']'").
Notation "m ;; k" := (bind m (λ _, k))
  (at level 100, k at level 200, right associativity).

Definition emit (e : Effect) : M unit := λ st,
  (Fulfilled (), mkState (cache st) (trace st ++ [e]) (world st)).

(** *** The QueryClient, on the tasks key *)

Definition cancelQueries : M unit := emit CancelQueries.

Definition invalidateQueries : M unit := emit InvalidateQueries.

Definition getQueryData : M (option (list Task)) := λ st,
  (Fulfilled (cache st), st).

(** [setQueryData(key, updater)]: the updater is given the old data and
    its result becomes the data. *)
Definition setQueryData (updater : option (list Task) → list Task) : M unit := λ st,
  (Fulfilled (), mkState (Some (updater (cache st))) (trace st) (world st)).

(** *** taskApi over [fetch] *)

Definition makeRequest (r : Request) : M (option ResBody) := λ st,
  let '(f, w') := fetch r (world st) in
  (makeRequest_result f, mkState (cache st) (trace st ++ [Sent r]) w').

Definition validateTaskData (data : option ResBody) : M Task :=
  match validateTask data with
  | inr t => ret t
  | inl msg => throw (Error ("Invalid task data: " +:+ msg))
  end.

Definition api_createTask (taskData : CreateTaskData) : M Task :=
  do data ← makeRequest (createTask_request taskData);
  validateTaskData data.

Definition api_updateTaskStatus (id : string) (st : Status) : M Task :=
  do data ← makeRequest (updateTaskStatus_request id st);
  validateTaskData data.

Definition api_updateTask (id : string) (updates : UpdateTaskData) : M Task :=
  do data ← makeRequest (updateTask_request id updates);
  validateTaskData data.

Definition api_deleteTask (id : string) : M unit :=
  makeRequest (deleteTask_request id) ;; ret ().


(** *** Mutations *)

(** The context [onMutate] hands to [onError]. *)
Record Context : Type := mkContext {
  previousTasks : option (list Task)
}.

(** The options given to [useMutation]; a callback that is not given is
    [None].  The callbacks of these hooks do not throw. *)
Record Mutation (V R : Type) : Type := mkMutation {
  mutationFn : V → M R;
  onMutate : option (V → State → Context * State);
  onSuccess : option (R → State → State);
  onError : option (option Context → State → State);
  onSettled : option (State → State)
}.
Arguments mutationFn {V R} _.
Arguments onMutate {V R} _.
Arguments onSuccess {V R} _.
Arguments onError {V R} _.
Arguments onSettled {V R} _.

Definition call {A} (cb : option (A → State → State)) (a : A) (st : State) : State :=
  match cb with Some f => f a st | None => st end.

Definition call0 (cb : option (State → State)) (st : State) : State :=
  match cb with Some f => f st | None => st end.

(** [mutations: { retry: 1 }] of the QueryClient's default options. *)
Definition mutation_retry : nat := 1.

(** The mutation function with its retries: a rejected attempt is tried
    again while retries are left. *)
Fixpoint attempt {R} (retries : nat) (fn : M R) : M R := λ st,
  match fn st, retries with
  | (Rejected e, st'), S n => attempt n fn st'
  | res, _ => res
  end.

(** First phase of [mutateAsync]: [onMutate], before the request. *)
Definition begin {V R} (m : Mutation V R) (v : V) (st : State)
  : option Context * State :=
  match onMutate m with
  | Some f => let '(ctx, st') := f v st in (Some ctx, st')
  | None => (None, st)
  end.

(** Last phase: the callbacks that follow the settled mutation function. *)
Definition settle {V R} (m : Mutation V R) (ctx : option Context)
    (res : Outcome R) (st : State) : State :=
  match res with
  | Fulfilled data => call0 (onSettled m) (call (onSuccess m) data st)
  | Rejected e => call0 (onSettled m) (call (onError m) ctx st)
  end.

(** [mutation.mutateAsync(v)]: [onMutate], the mutation function with
    its retries, then [onSuccess] or [onError], then [onSettled]; the
    promise settles as the mutation function did. *)
Definition mutateAsync {V R} (m : Mutation V R) (v : V) : M R := λ st,
  let '(ctx, st1) := begin m v st in
  let '(res, st2) := attempt mutation_retry (mutationFn m v) st1 in
  (res, settle m ctx res st2).

(** The state a callback leaves, for callbacks written in [M] that only
    use the QueryClient. *)
Definition exec {A} (m : M A) (st : State) : State := (m st).2.

(** [useCreateTaskMutation] *)
Definition createTaskMutation : Mutation CreateTaskData Task :=
  mkMutation _ _
    api_createTask
    None
    (Some (λ newTask,
       exec (setQueryData (λ oldTasks, default [] oldTasks ++ [newTask]) ;;
             invalidateQueries)))
    (Some (λ _ st, st))
    None.

(** The [onMutate] the three optimistic hooks share, up to the change
    they apply: cancel the refetches, take the snapshot, and apply the
    change if there is cached data. *)
Definition optimistic (change : list Task → list Task) (st : State)
  : Context * State :=
  let st1 := exec cancelQueries st in
  let previousTasks := cache st1 in
  let st2 :=
    match previousTasks with
    | Some _ => exec (setQueryData (λ oldTasks, change (default [] oldTasks))) st1
    | None => st1
    end in
  (mkContext previousTasks, st2).

(** The [onError] they share: [context?.previousTasks] puts the snapshot
    back. *)
Definition rollback (ctx : option Context) (st : State) : State :=
  match ctx ≫= previousTasks with
  | Some previous => exec (setQueryData (λ _, previous)) st
  | None => st
  end.

Definition refetch_always (st : State) : State := exec invalidateQueries st.

(** [task.id === id ? { ...task, status } : task] *)
Definition set_status (id : string) (st : Status) (task : Task) : Task :=
  if decide (task_id task = id)
  then mkTask (task_id task) (title task) (description task) st
  else task.

(** [task.id === id ? { ...task, ...updates } : task] *)
Definition apply_updates (id : string) (updates : UpdateTaskData) (task : Task) : Task :=
  if decide (task_id task = id)
  then mkTask (task_id task)
              (default (title task) (ud_title updates))
              (default (description task) (ud_description updates))
              (default (status task) (ud_status updates))
  else task.

(** [useUpdateTaskStatusMutation] *)
Definition updateTaskStatusMutation : Mutation (string * Status) Task :=
  mkMutation _ _
    (λ '(id, st), api_updateTaskStatus id st)
    (Some (λ '(id, st), optimistic (fmap (set_status id st))))
    None
    (Some rollback)
    (Some refetch_always).

(** [useUpdateTaskMutation] *)
Definition updateTaskMutation : Mutation (string * UpdateTaskData) Task :=
  mkMutation _ _
    (λ '(id, updates), api_updateTask id updates)
    (Some (λ '(id, updates), optimistic (fmap (apply_updates id updates))))
    None
    (Some rollback)
    (Some refetch_always).

(** [useDeleteTaskMutation] *)
Definition deleteTaskMutation : Mutation string unit :=
  mkMutation _ _
    api_deleteTask
    (Some (λ id, optimistic (filter (λ task, task_id task ≠ id))))
    None
    (Some rollback)
    (Some refetch_always).

(** *** useTasks *)

Definition createTask (taskData : CreateTaskData) : M Task :=
  mutateAsync createTaskMutation taskData.

(** [tasksQuery.data || []] is read from the cache; [find] gives the
    first task with the id. *)
Definition toggleTaskStatus (id : string) : M unit :=
  do data ← getQueryData;
  let currentTasks := default [] data in
  match snd <$> list_find (λ t, task_id t = id) currentTasks with
  | None => throw (Error "Task not found")
  | Some task =>
      let newStatus := if decide (status task = Done) then Pending else Done in
      mutateAsync updateTaskStatusMutation (id, newStatus) ;; ret ()
  end.

Definition updateTask (id : string) (updates : UpdateTaskData) : M Task :=
  mutateAsync updateTaskMutation (id, updates).

Definition deleteTask (id : string) : M unit :=
  mutateAsync deleteTaskMutation id ;; ret ().

End Client.

Arguments mutationFn {W V R} _.
Arguments onMutate {W V R} _.
Arguments onSuccess {W V R} _.
Arguments onError {W V R} _.
Arguments onSettled {W V R} _.

End Hooks.

(** ** components/tasks/TaskItem and App: the save path of an edited task *)

Module TaskItem.

Import Hooks.

Section Save.

Context {W : Type}.
Variable fetch : Request → W → Fetched * W.
Variable validateTask : option ResBody → string + Task.

(** [String.prototype.trim], and [validateUpdateTask] of the frontend's
    types/task.ts, parameters here: the data of a successful validation,
    [None] for a failed one. *)
Variable trim : string → string.
Variable validateUpdateTask : UpdateTaskData → option UpdateTaskData.

(** What [handleSave] hands to the validation. *)
Definition edited (editTitle editDescription : string) : UpdateTaskData :=
  mkUpdateTaskData (Some (trim editTitle)) (Some (trim editDescription)) None.

(** [handleSave] of the item showing [task], with the edit fields as they
    stand: a failed validation returns early; otherwise [onUpdate] goes
    through [App.handleUpdateTask] to [updateTask(task.id, updates)] of
    [useTasks], whose rejection is caught and logged. *)
Definition handleSave (task : Task) (editTitle editDescription : string)
    (st : State) : State :=
  match validateUpdateTask (edited editTitle editDescription) with
  | None => st
  | Some data => (updateTask fetch validateTask (task_id task) data st).2
  end.

End Save.

End TaskItem.

(** ** The client in front of the server *)

Module Wire.

(** The reason phrase Node sends with the statuses the server uses. *)
Definition reason_phrase (status : N) : string :=
  if decide (status = 200) then "OK"
  else if decide (status = 201) then "Created"
  else if decide (status = 400) then "Bad Request"
  else if decide (status = 404) then "Not Found"
  else "Internal Server Error".

(** [fetch] against the server of this repository, with a network that
    delivers: the world is the server's store. *)
Definition server_fetch (r : Request) (s : Store) : Fetched * Store :=
  match app r s with
  | (Json resp, s') =>
      (Got (res_status resp) (reason_phrase (res_status resp))
           (JsonBody (res_body resp)), s')
  | (SwaggerUi, s') => (Got 200 "OK" NotJson, s')
  end.

End Wire.

(** ** Instances for the examples *)

Module Scenario.

Import Hooks.

(** An instance of [validateTask]: it accepts a task whose title and
    description are not empty, as the [TaskSchema] of the backend does. *)
Definition accept_task (data : option ResBody) : string + Task :=
  match data with
  | Some (OneTask t) =>
      if decide (title t = "" ∨ description t = "") then inl "too small"
      else inr t
  | _ => inl "invalid type"
  end.

(** A network that is down: every [fetch] rejects. *)
Definition offline (r : Request) (w : unit) : Fetched * unit := (FetchFailed, w).

(** A network that loses the responses: the request reaches the server
    of this repository, which serves it, and [fetch] rejects. *)
Definition lost_response (r : Request) (s : Store) : Fetched * Store :=
  (FetchFailed, (app r s).2).

Definition sample : Task :=
  mkTask "1" "Sample Task" "This is a sample task" Pending.

(** An instance of [trim]: it strips the spaces at both ends. *)
Fixpoint drop_spaces (s : string) : string :=
  match s with
  | String c s' => if decide (c = " "%char) then drop_spaces s' else s
  | EmptyString => EmptyString
  end.

Definition trim_spaces (s : string) : string :=
  String.rev (drop_spaces (String.rev (drop_spaces s))).

(** An instance of [validateUpdateTask]: it accepts, and hands on as they
    are, updates whose title and description are present and not empty. *)
Definition accept_update (u : UpdateTaskData) : option UpdateTaskData :=
  match ud_title u, ud_description u with
  | Some t, Some d => if decide (t = "" ∨ d = "") then None else Some u
  | _, _ => None
  end.

(** A client whose cache holds [l], with nothing done yet. *)
Definition cached {W} (l : list Task) (w : W) : State := mkState (Some l) [] w.

End Scenario.

(** * Vocabulary of the properties *)

(** ** Sequences of store operations *)

Module Ops.

(** The ids in the store, in list order. *)
Definition ids (s : Store) : list string := task_id <$> tasks s.

(** The four operations that change the store. *)
Inductive Op : Type :=
  | Create (taskData : CreateTask)
  | UpdateStatus (id : string) (updateData : UpdateTask)
  | Update (id : string) (updateData : CreateTask)
  | Delete (id : string).

(** The store an operation leaves. *)
Definition step (s : Store) (o : Op) : Store :=
  match o with
  | Create d => (Service.createTask d s).2
  | UpdateStatus id u => (Service.updateTaskStatus id u s).2
  | Update id d => (Service.updateTask id d s).2
  | Delete id => (Service.deleteTask id s).2
  end.

(** The store after a sequence of operations, first operation first. *)
Definition run (s : Store) (ops : list Op) : Store := foldl step s ops.

(** What an operation does to the list of ids: a create appends the
    string of the counter, the updates leave the list as it is, a delete
    removes one position or nothing. *)
Definition ids_effect (s : Store) (o : Op) : Prop :=
  match o with
  | Create _ =>
      ids (step s o) = ids s ++ [toString (nextId s)] ∧
      nextId (step s o) = nextId s + 1
  | UpdateStatus _ _ | Update _ _ =>
      ids (step s o) = ids s ∧ nextId (step s o) = nextId s
  | Delete _ =>
      (ids (step s o) = ids s ∨ ∃ i, ids (step s o) = delete i (ids s)) ∧
      nextId (step s o) = nextId s
  end.

(** Every id in the store is the string of a number below the counter. *)
Definition below_counter (s : Store) : Prop :=
  ∀ id, id ∈ ids s → ∃ k, id = toString k ∧ k < nextId s.

End Ops.

(** ** Ids as path segments *)

Module Paths.

(** Letters, digits, dash and underscore. *)
Definition plain_char (c : ascii) : bool :=
  let n := N_of_ascii c in
  bool_decide (48 ≤ n ≤ 57) || bool_decide (65 ≤ n ≤ 90) ||
  bool_decide (97 ≤ n ≤ 122) || bool_decide (n = 45) || bool_decide (n = 95).

Fixpoint plain (s : string) : bool :=
  match s with
  | EmptyString => true
  | String c s' => plain_char c && plain s'
  end.

(** A plain id: not empty, and made of plain characters. *)
Definition plain_id (id : string) : Prop := id ≠ "" ∧ plain id = true.


(** The characters a URL carries as they are inside one path segment:
    letters, digits, the marks [-._~!$&'()*+,;=:@], and the percent sign
    of an escape.  (A slash, a question mark or a hash would end the
    segment; the other characters are escaped or dropped when the URL is
    parsed.) *)
Definition segment_char (c : ascii) : bool :=
  let n := N_of_ascii c in
  bool_decide (48 ≤ n ≤ 57) || bool_decide (65 ≤ n ≤ 90) ||
  bool_decide (97 ≤ n ≤ 122) ||
  bool_decide (n ∈ [45; 46; 95; 126;
                    33; 36; 38; 39; 40; 41; 42; 43; 44; 59; 61;
                    58; 64; 37]).

Fixpoint segment (s : string) : bool :=
  match s with
  | EmptyString => true
  | String c s' => segment_char c && segment s'
  end.



End Paths.

(** ** Phases of a mutation *)

Module Protocol.

Import Hooks.

Section Phases.

Context {W : Type}.

(** A computation is quiet when it keeps the cached data and adds only
    sent requests to the trace. *)
Definition quiet {R} (fn : @M W R) : Prop :=
  ∀ st, cache (fn st).2 = cache st ∧
        ∃ reqs, trace (fn st).2 = trace st ++ (Sent <$> reqs).

(** A computation sends [r] when each run adds exactly that request to
    the trace. *)
Definition sends {R} (fn : @M W R) (r : Request) : Prop :=
  ∀ st, trace (fn st).2 = trace st ++ [Sent r].

(** The three hooks with an optimistic update share everything but the
    change they apply and the request they send: [onMutate] is
    [optimistic] of the change, there is no [onSuccess], [onError] is
    [rollback] and [onSettled] invalidates. *)
Definition optimistic_hook {V R} (m : @Mutation W V R)
    (change : V → list Task → list Task) : Prop :=
  (∀ v st, begin m v st =
     (Some (optimistic (change v) st).1, (optimistic (change v) st).2)) ∧
  (∀ ctx res st, settle m ctx res st =
     match res with
     | Fulfilled _ => refetch_always st
     | Rejected _ => refetch_always (rollback ctx st)
     end) ∧
  ∀ v, quiet (mutationFn m v).

(** What rollback exactness says of one hook, started with variables [v]
    in state [st]: the snapshot [onMutate] takes is the cached data of
    [st]; if [mutateAsync] rejects, the cached data is again that of [st];
    and [onError] writes the snapshot over whatever the cache holds when
    the error arrives. *)
Definition rolls_back {V R} (m : @Mutation W V R) : Prop :=
  ∀ v (st : @State W),
    (begin m v st).1 = Some (mkContext (cache st)) ∧
    (∀ e st', mutateAsync m v st = (Rejected e, st') → cache st' = cache st) ∧
    (∀ e l st2, cache st = Some l →
       cache (settle m (begin m v st).1 (Rejected e) st2) = Some l).

(** A hook started with variables [v] in state [st], whose cache holds
    [l], has applied its change before the request when:
    - [onMutate] takes [l] as its snapshot and leaves [l'] in the cache,
      having only cancelled the refetches: no other effect lies between
      the cancellation and the write, nothing has been sent, and the
      world is as it was;
    - the mutation function, with its retry, starts from that state: the
      requests come after the cancellation in the trace, and the cache
      holds [l'] until the function settles;
    - the mutation settles as those attempts did. *)
Definition applied_before_request {V R} (m : @Mutation W V R) (v : V)
    (st : @State W) (l l' : list Task) : Prop :=
  let started := begin m v st in
  let in_flight := attempt mutation_retry (mutationFn m v) started.2 in
  started.1 = Some (mkContext (Some l)) ∧
  cache started.2 = Some l' ∧
  trace started.2 = trace st ++ [CancelQueries] ∧
  world started.2 = world st ∧
  cache in_flight.2 = Some l' ∧
  (∃ reqs, trace in_flight.2 = trace st ++ [CancelQueries] ++ (Sent <$> reqs)) ∧
  (mutateAsync m v st).1 = in_flight.1.

(** The other value of the two-value enumeration. *)
Definition opposite (s : Status) : Status :=
  match s with Pending => Done | Done => Pending end.

End Phases.

End Protocol.

(** ** Reading the task list *)

Module Queries.

Import Hooks.

(** [retryDelay] of the QueryClient's default options for queries:
    [Math.min(1000 * 2 ** attemptIndex, 30000)], in milliseconds, for the
    index of the failed attempt. *)
Definition retryDelay (attemptIndex : N) : N :=
  N.min (1000 * 2 ^ attemptIndex) 30000.

(** [retry: 1] of [useTasksQuery]. *)
Definition tasks_query_retry : nat := 1.

Section Read.

Context {W : Type}.
Variable fetch : Request → W → Fetched * W.
Variable validateTask : option ResBody → string + Task.

(** The message of the [TypeError] the engine raises for [data.map] when
    [data] is not an array; a parameter. *)
Variable typeError : option ResBody → string.

(** [data.map(task => this.validateTaskData(task))]: the elements are
    validated in order, and the first failure is thrown. *)
Fixpoint validate_each (l : list Task) : @M W (list Task) :=
  match l with
  | [] => ret []
  | task :: l' =>
      bind (validateTaskData validateTask (Some (OneTask task))) (λ t,
      bind (validate_each l') (λ r, ret (t :: r)))
  end.

(** [taskApi.getTasks] *)
Definition api_getTasks : @M W (list Task) :=
  bind (makeRequest fetch getTasks_request) (λ data,
    match data with
    | Some (TaskList l) => validate_each l
    | _ => throw (Error (typeError data))
    end).

(** A fetch of [useTasksQuery]: the query function is [taskApi.getTasks]
    (with its logging), tried again once when it rejects; the result of
    a fetch that succeeds becomes the data under the tasks key, and a
    fetch that fails leaves the data as it is. *)
Definition fetchTasks : @M W unit := λ st,
  match attempt tasks_query_retry api_getTasks st with
  | (Fulfilled result, st') => setQueryData (λ _, result) st'
  | (Rejected e, st') => (@Rejected unit e, st')
  end.

End Read.

End Queries.

(** ** Sequences of requests *)

Module Requests.

Import Ops.

(** The store a request leaves, and the store after a sequence of
    requests, first request first. *)
Definition serve (s : Store) (r : Request) : Store := (app r s).2.

Definition serve_all (s : Store) (rs : list Request) : Store := foldl serve s rs.

(** A task as [TaskSchema] wants it: title and description not empty. *)
Definition well_formed (t : Task) : Prop := title t ≠ "" ∧ description t ≠ "".

(** The number of creates in a sequence of operations. *)
Fixpoint creates (ops : list Op) : N :=
  match ops with
  | [] => 0
  | Create _ :: ops' => 1 + creates ops'
  | _ :: ops' => creates ops'
  end.

(** An operation the handlers can pass to the service: the data of a
    create or of a full update went through [CreateTaskSchema]. *)
Definition validated (o : Op) : Prop :=
  match o with
  | Create d | Update _ d => ct_title d ≠ "" ∧ ct_description d ≠ ""
  | UpdateStatus _ _ | Delete _ => True
  end.

(** What a request does, as the response and the store it leaves: a read
    answers 200 and leaves the store; a refusal answers 400, 404 or 500
    with an error message and leaves the store; a change answers 200 or
    201 and leaves the store of one validated operation. *)
Inductive Served (r : Request) (s : Store) : Response → Store → Prop :=
  | served_read body :
      req_method r = GET → (∀ e details, body ≠ ErrorBody e details) →
      Served r s (mkResponse 200 body) s
  | served_refusal code e details :
      code = 400 ∨ code = 404 ∨ code = 500 → e ≠ "" →
      Served r s (mkResponse code (ErrorBody e details)) s
  | served_change code body o :
      req_method r ≠ GET → code = 200 ∨ code = 201 →
      (∀ e details, body ≠ ErrorBody e details) → validated o →
      Served r s (mkResponse code body) (step s o).

End Requests.

(** * Properties of the task store *)

Module StoreFacts.

Import Ops.

Lemma findIndex_None id l :
  findIndex id l = None ↔ id ∉ task_id <$> l.
Proof.
  unfold findIndex. rewrite list_find_None, list_elem_of_fmap, Forall_forall.
  split.
  - intros H (t & -> & Ht). by apply (H t).
  - intros H t Ht Heq. apply H. by exists t.
Qed.

Lemma findIndex_Some id l i t :
  findIndex id l = Some (i, t) ↔
  l !! i = Some t ∧ task_id t = id ∧
  ∀ j u, l !! j = Some u → (j < i)%nat → task_id u ≠ id.
Proof. unfold findIndex. by rewrite list_find_Some. Qed.

Lemma findIndex_elem id l :
  id ∈ task_id <$> l → ∃ i t, findIndex id l = Some (i, t).
Proof.
  intros Hin. destruct (findIndex id l) as [[i t]|] eqn:E; [by eauto|].
  by apply findIndex_None in E.
Qed.

(** With distinct ids, removing the first task with an id removes the id. *)
Lemma ids_delete_fresh id l i t :
  NoDup (task_id <$> l) → l !! i = Some t → task_id t = id →
  id ∉ task_id <$> delete i l.
Proof.
  intros Hnd Hi Hid Hin.
  apply list_elem_of_fmap in Hin as (u & Hu & Hin).
  apply list_elem_of_lookup in Hin as (j & Hj).
  assert (Hi' : (task_id <$> l) !! i = Some id) by (by rewrite list_lookup_fmap, Hi; simpl; rewrite Hid).
  destruct (decide (j < i)%nat) as [Hlt|Hge].
  - rewrite list_lookup_delete_lt in Hj by done.
    assert ((task_id <$> l) !! j = Some id) by (by rewrite list_lookup_fmap, Hj; simpl; rewrite <- Hu).
    pose proof (NoDup_lookup _ _ _ _ Hnd Hi' H). lia.
  - rewrite list_lookup_delete_ge in Hj by lia.
    assert ((task_id <$> l) !! S j = Some id) by (by rewrite list_lookup_fmap, Hj; simpl; rewrite <- Hu).
    pose proof (NoDup_lookup _ _ _ _ Hnd Hi' H). lia.
Qed.

Lemma parse_status_string field st :
  parse_status field (Some (JStr (status_string st))) = ParseOk st.
Proof. by destruct st. Qed.

(** ** Delete *)



(** ** Status update *)

(** C8. Frame property of the status update.  For an id in the store
    and a status value, [updateTaskStatus] replaces the task at the first
    index holding the id by the same task with the new status: id, title
    and description are kept, every other position of the list is as it
    was, and so are the length, the order of the ids and the id counter;
    the PATCH handler, given a body whose [status] is that value, answers
    200 with the updated task.  For an id that is not in the store the
    result is null (404 "Task not found") and the store is unchanged. *)
Theorem updateTaskStatus_frame (id : string) (st : Status) (s : Store) :
  (id ∈ ids s →
     ∃ i t,
       tasks s !! i = Some t ∧ task_id t = id ∧
       let t' := mkTask (task_id t) (title t) (description t) st in
       let s' := mkStore (<[i := t']> (tasks s)) (nextId s) in
       Service.updateTaskStatus id (mkUpdateTask st) s = (Some t', s') ∧
       tasks s' !! i = Some t' ∧
       (∀ j, j ≠ i → tasks s' !! j = tasks s !! j) ∧
       length (tasks s') = length (tasks s) ∧
       ids s' = ids s ∧
       (∀ o, id ≠ "" → obj_get "status" o = Some (JStr (status_string st)) →
          Controller.updateTaskStatus id (JObj o) s =
            (mkResponse 200 (OneTask t'), s')))
  ∧
  (id ∉ ids s →
     Service.updateTaskStatus id (mkUpdateTask st) s = (None, s) ∧
     (∀ o, id ≠ "" → obj_get "status" o = Some (JStr (status_string st)) →
        Controller.updateTaskStatus id (JObj o) s = (task_not_found, s))).
Proof.
  split.
  - intros Hin. destruct (findIndex_elem _ _ Hin) as (i & t & Hfind).
    pose proof Hfind as (Hi & Hid & _)%findIndex_Some.
    assert (Hlt : (i < length (tasks s))%nat) by (by eapply lookup_lt_Some).
    assert (Hsvc : Service.updateTaskStatus id (mkUpdateTask st) s =
              (Some (mkTask (task_id t) (title t) (description t) st),
               mkStore (<[i := mkTask (task_id t) (title t) (description t) st]>
                          (tasks s)) (nextId s)))
      by (unfold Service.updateTaskStatus; by rewrite Hfind).
    exists i, t. cbv zeta. simpl. split_and!; try done.
    + by apply list_lookup_insert_eq.
    + intros j Hj. by apply list_lookup_insert_ne.
    + apply length_insert.
    + unfold ids; simpl. rewrite list_fmap_insert; simpl.
      apply list_insert_id. by rewrite list_lookup_fmap, Hi.
    + intros o Hne Ho. unfold Controller.updateTaskStatus, UpdateTaskSchema_parse.
      rewrite decide_False by done. rewrite Ho, parse_status_string.
      by rewrite Hsvc.
  - intros Hnot. apply findIndex_None in Hnot.
    assert (Hsvc : Service.updateTaskStatus id (mkUpdateTask st) s = (None, s))
      by (unfold Service.updateTaskStatus; by rewrite Hnot).
    split; [done|]. intros o Hne Ho.
    unfold Controller.updateTaskStatus, UpdateTaskSchema_parse.
    rewrite decide_False by done. rewrite Ho, parse_status_string.
    by rewrite Hsvc.
Qed.

(** The frame property at work: the sample task set to done in a store
    of two tasks, and an unknown id. *)
Lemma updateTaskStatus_frame_witness :
  let s := (Service.createTask (mkCreateTask "Buy milk" "2%" Pending) initial).2 in
  (∃ i t, tasks s !! i = Some t ∧ task_id t = "1" ∧
     Service.updateTaskStatus "1" (mkUpdateTask Done) s =
       (Some (mkTask (task_id t) (title t) (description t) Done),
        mkStore (<[i := mkTask (task_id t) (title t) (description t) Done]>
                   (tasks s)) (nextId s))) ∧
  Service.updateTaskStatus "9" (mkUpdateTask Done) s = (None, s).
Proof.
  intros s. split.
  - destruct (proj1 (updateTaskStatus_frame "1" Done s)) as (i & t & Hi & Hid & H).
    { compute_done. }
    cbv zeta in H. exists i, t. split_and!; try done. apply H.
  - apply (proj2 (updateTaskStatus_frame "9" Done s)). compute_done.
Defined.

(** ** Ids *)

#[global] Instance toString_inj : Inj (=) (=) toString.
Proof. unfold toString. apply _. Qed.

Lemma step_ids_effect s o : ids_effect s o.
Proof.
  destruct o as [d|id u|id d|id]; unfold ids_effect, step, ids; simpl.
  - split; [|done]. by rewrite fmap_app.
  - unfold Service.updateTaskStatus.
    destruct (findIndex id (tasks s)) as [[i t]|] eqn:E; simpl; [|done].
    apply findIndex_Some in E as (Hi & _ & _). split; [|done].
    rewrite list_fmap_insert; simpl.
    apply list_insert_id. by rewrite list_lookup_fmap, Hi.
  - unfold Service.updateTask.
    destruct (findIndex id (tasks s)) as [[i t]|] eqn:E; simpl; [|done].
    apply findIndex_Some in E as (Hi & _ & _). split; [|done].
    rewrite list_fmap_insert; simpl.
    apply list_insert_id. by rewrite list_lookup_fmap, Hi.
  - unfold Service.deleteTask.
    destruct (findIndex id (tasks s)) as [[i t]|] eqn:E; simpl.
    + split; [|done]. right. exists i. apply list_fmap_delete.
    + split; [by left|done].
Qed.

Lemma step_nextId_mono s o : nextId s ≤ nextId (step s o).
Proof.
  pose proof (step_ids_effect s o) as H.
  destruct o; unfold ids_effect in H; destruct H as [_ Hnext]; rewrite Hnext; lia.
Qed.

Lemma run_nextId_mono ops : ∀ s, nextId s ≤ nextId (run s ops).
Proof.
  induction ops as [|o ops IH]; intros s; simpl; [done|].
  etrans; [apply (step_nextId_mono s o)|apply IH].
Qed.

Lemma step_invariant s o :
  NoDup (ids s) → below_counter s →
  NoDup (ids (step s o)) ∧ below_counter (step s o).
Proof.
  intros Hnd Hbelow. pose proof (step_ids_effect s o) as H.
  destruct o as [d|id u|id d|id]; unfold ids_effect in H.
  - destruct H as [Hids Hnext]. split.
    + rewrite Hids. apply NoDup_app. split_and!; [done| |apply NoDup_singleton].
      intros x Hx ->%list_elem_of_singleton.
      destruct (Hbelow _ Hx) as (k & Hk%(inj toString) & Hlt). lia.
    + intros x. rewrite Hids, Hnext. intros [Hx| ->%list_elem_of_singleton]%elem_of_app.
      * destruct (Hbelow _ Hx) as (k & -> & Hlt). exists k. split; [done|lia].
      * exists (nextId s). split; [done|lia].
  - destruct H as [Hids Hnext]. split; [by rewrite Hids|].
    intros x. rewrite Hids, Hnext. apply Hbelow.
  - destruct H as [Hids Hnext]. split; [by rewrite Hids|].
    intros x. rewrite Hids, Hnext. apply Hbelow.
  - destruct H as [[Hids|[i Hids]] Hnext].
    + split; [by rewrite Hids|]. intros x. rewrite Hids, Hnext. apply Hbelow.
    + assert (Hsub : ids (step s (Delete id)) `sublist_of` ids s)
        by (rewrite Hids; apply sublist_delete).
      split; [by eapply sublist_NoDup|].
      intros x Hx. rewrite Hnext. apply Hbelow.
      by eapply elem_of_sublist.
Qed.

Lemma run_invariant ops : ∀ s,
  NoDup (ids s) → below_counter s →
  NoDup (ids (run s ops)) ∧ below_counter (run s ops).
Proof.
  induction ops as [|o ops IH]; intros s Hnd Hbelow; simpl; [done|].
  destruct (step_invariant s o Hnd Hbelow) as [Hnd' Hbelow'].
  by apply IH.
Qed.

Lemma initial_invariant : NoDup (ids initial) ∧ below_counter initial.
Proof.
  split; [apply NoDup_singleton|].
  intros id ->%list_elem_of_singleton. exists 1. split; [done|]. by compute.
Qed.

(** C9. Id uniqueness.  Let [s] be the store after any sequence of
    create, update-status, full-update and delete operations from the
    initial store (one sample task with id "1", counter 2).  Then the ids
    in [s] are pairwise distinct.  The counter never decreases, and a
    create assigns the string of the counter and increments it, so the
    id a create assigns in [s] is not in [s], and is not assigned again by
    any create after any further operations, deletes included.  No
    operation changes the id of a task: a create appends an id, the two
    updates leave the list of ids as it is, a delete removes at most one
    position. *)
Theorem ids_unique (ops : list Op) :
  let s := run initial ops in
  NoDup (ids s) ∧
  (∀ d, task_id (Service.createTask d s).1 = toString (nextId s) ∧
        task_id (Service.createTask d s).1 ∉ ids s) ∧
  (∀ d ops' d',
     let s' := run (step s (Create d)) ops' in
     nextId s < nextId s' ∧
     task_id (Service.createTask d' s').1 ≠ task_id (Service.createTask d s).1) ∧
  (∀ o, ids_effect s o).
Proof.
  intros s. destruct (run_invariant ops initial) as [Hnd Hbelow];
    [apply initial_invariant..|]. fold s in Hnd, Hbelow.
  split_and!; [done| | |apply step_ids_effect].
  - intros d. split; [done|]. simpl. intros Hin.
    destruct (Hbelow _ Hin) as (k & Hk%(inj toString) & Hlt). lia.
  - intros d ops' d' s'.
    assert (Hlt : nextId s < nextId s').
    { pose proof (run_nextId_mono ops' (step s (Create d))) as Hmono.
      fold s' in Hmono. simpl in Hmono. lia. }
    split; [done|]. simpl. intros Heq%(inj toString). lia.
Qed.

End StoreFacts.

(** * Properties of the HTTP contract *)

Module HttpFacts.

Import Ops Paths StoreFacts.

(** ** Ids as path segments *)

Lemma split_slash_plain s : plain s = true → split_slash s = [s].
Proof.
  induction s as [|c s IH]; simpl; [done|].
  intros [Hc Hs]%andb_prop. rewrite (IH Hs).
  destruct (decide (c = "/"%char)) as [->|]; [done|done].
Qed.

Lemma segments_task id :
  plain id = true → segments (base_path +:+ "/tasks/" +:+ id) = Some ["api"; "tasks"; id].
Proof.
  intros Hp. unfold segments, base_path. cbv [String.append]. cbn.
  by rewrite (split_slash_plain _ Hp).
Qed.

(** A character that is not the percent sign decodes to itself. *)
Lemma decodeURIComponent_cons c s :
  c ≠ "%"%char →
  decodeURIComponent (String c s) = String c <$> decodeURIComponent s.
Proof.
  intros Hc. unfold decodeURIComponent. cbn [escapes].
  rewrite decide_False by done. by destruct (escapes s).
Qed.

(** A plain string has no escapes: decoding leaves it as it is. *)
Lemma decodeURIComponent_plain s :
  plain s = true → decodeURIComponent s = Some s.
Proof.
  induction s as [|c s IH]; [done|]. cbn [plain].
  intros [Hc Hs]%andb_prop. rewrite decodeURIComponent_cons.
  - by rewrite (IH Hs).
  - by intros ->.
Qed.

(** The ids the store assigns are plain: decimal digits, at least one. *)
Lemma digit_plain m : plain_char (pretty_N_char m) = true.
Proof.
  unfold pretty_N_char.
  destruct m as [|p]; [reflexivity|].
  do 4 (try destruct p as [p|p|]); reflexivity.
Qed.

Lemma plain_pretty_N_go x : ∀ s,
  plain s = true → s ≠ "" ∨ (0 < x) →
  plain (pretty_N_go x s) = true ∧ pretty_N_go x s ≠ "".
Proof.
  induction (N.lt_wf_0 x) as [x _ IH]. intros s Hs Hne.
  destruct (decide (0 < x)) as [Hx|Hx].
  - rewrite pretty_N_go_step by done. apply IH.
    + by apply N.div_lt.
    + cbn [plain]. by rewrite Hs, digit_plain.
    + by left.
  - assert (x = 0) as -> by lia. rewrite pretty_N_go_0.
    split; [done|]. destruct Hne; [done|lia].
Qed.

Lemma plain_toString n : plain_id (toString n).
Proof.
  unfold plain_id, toString, pretty, pretty_N.
  destruct (decide (n = 0)) as [->|Hn]; [done|].
  destruct (plain_pretty_N_go n "") as [Hp Hne]; [done|right; lia|done].
Qed.

(** Every id in a store reached from the initial store is plain. *)
Lemma reachable_plain ops id :
  id ∈ ids (run initial ops) → plain_id id.
Proof.
  intros Hin.
  destruct (run_invariant ops initial) as [_ Hbelow];
    [apply initial_invariant..|].
  destruct (Hbelow _ Hin) as (k & -> & _). apply plain_toString.
Qed.





(** The routes with a parameter take a plain id as the parameter. *)
Lemma app_task_route m id body s :
  plain_id id → strict_json body = true →
  app (mkRequest m (base_path +:+ "/tasks/" +:+ id) body) s =
  match m with
  | GET | POST => answer (notFound (mkRequest m (base_path +:+ "/tasks/" +:+ id) body)) s
  | DELETE => answer (Controller.deleteTask id) s
  | PATCH => answer (Controller.updateTaskStatus id body) s
  | PUT => answer (Controller.updateTask id body) s
  end.
Proof.
  intros [Hne Hp] Hb. unfold app. cbn [req_path req_method req_body].
  rewrite Hb, (segments_task _ Hp).
  assert (Hr1 : match_route tasks_path ["tasks"; id] = None).
  { cbn. rewrite decide_True by done. by rewrite decide_False. }
  assert (Hr2 : match_route task_path ["tasks"; id] = Some [id]).
  { cbn. rewrite decide_True by done. by rewrite decide_False. }
  assert (Hh : match_route [Lit "health"] ["api"; "tasks"; id] = None) by done.
  rewrite decide_False by done. rewrite decide_True by done.
  unfold router. rewrite Hr1, Hr2, Hh, (decodeURIComponent_plain _ Hp).
  destruct m; try done; rewrite decide_False; try done; by intros [_ ?].
Qed.

(** A segment of segment characters holds no slash. *)
Lemma split_slash_segment s : segment s = true → split_slash s = [s].
Proof.
  induction s as [|c s IH]; simpl; [done|].
  intros [Hc Hs]%andb_prop. rewrite (IH Hs).
  destruct (decide (c = "/"%char)) as [->|]; [discriminate Hc|done].
Qed.

(** The routes with a parameter on a path whose last segment is made of
    segment characters: the parameter is decoded first, and a parameter
    that cannot be decoded ends in the error handler whatever the
    method. *)
Lemma app_task_segment m id body s :
  id ≠ "" → segment id = true → strict_json body = true →
  app (mkRequest m (base_path +:+ "/tasks/" +:+ id) body) s =
  match decodeURIComponent id with
  | None => answer errorHandler s
  | Some id' =>
      match m with
      | GET | POST =>
          answer (notFound (mkRequest m (base_path +:+ "/tasks/" +:+ id) body)) s
      | DELETE => answer (Controller.deleteTask id') s
      | PATCH => answer (Controller.updateTaskStatus id' body) s
      | PUT => answer (Controller.updateTask id' body) s
      end
  end.
Proof.
  intros Hne Hp Hb. unfold app. cbn [req_path req_method req_body].
  assert (Hsegs : segments (base_path +:+ "/tasks/" +:+ id) =
                  Some ["api"; "tasks"; id]).
  { unfold segments, base_path. cbv [String.append]. cbn.
    by rewrite (split_slash_segment _ Hp). }
  rewrite Hb, Hsegs.
  assert (Hr1 : match_route tasks_path ["tasks"; id] = None).
  { cbn. rewrite decide_True by done. by rewrite decide_False. }
  assert (Hr2 : match_route task_path ["tasks"; id] = Some [id]).
  { cbn. rewrite decide_True by done. by rewrite decide_False. }
  assert (Hh : match_route [Lit "health"] ["api"; "tasks"; id] = None) by done.
  rewrite decide_False by done. rewrite decide_True by done.
  unfold router. rewrite Hr1, Hr2, Hh.
  destruct (decodeURIComponent id) as [id'|]; [|done].
  destruct m; try done; rewrite decide_False; try done; by intros [_ ?].
Qed.

Lemma app_tasks_route m body s :
  strict_json body = true →
  app (mkRequest m (base_path +:+ "/tasks") body) s =
  match m with
  | GET => answer Controller.getAllTasks s
  | POST => answer (Controller.createTask body) s
  | _ => answer (notFound (mkRequest m (base_path +:+ "/tasks") body)) s
  end.
Proof.
  intros Hb. unfold app. cbn [req_path req_method req_body]. rewrite Hb.
  by destruct m.
Qed.

(** ** Validation *)

Lemma parse_string_min1_ok field t :
  t ≠ "" → parse_string_min1 field (Some (JStr t)) = ParseOk t.
Proof.
  intros Hne. unfold parse_string_min1. rewrite decide_False; [done|].
  by destruct t.
Qed.

(** C6. Validation boundary and atomicity.  A create request whose body
    has the empty string as its title or as its description is answered
    400 "Invalid data" with the list of issues as details; the list names
    each empty field with the code [too_small]; and the store after the
    call is the store before it, counter included.  This holds of the
    handler and of the application on POST /api/tasks. *)
Theorem createTask_rejects_empty (o : list (string * json)) (s : Store) :
  obj_get "title" o = Some (JStr "") ∨ obj_get "description" o = Some (JStr "") →
  ∃ issues,
    Controller.createTask (JObj o) s =
      (mkResponse 400 (ErrorBody "Invalid data" (Some issues)), s) ∧
    app (mkRequest POST "/api/tasks" (JObj o)) s =
      (Json (mkResponse 400 (ErrorBody "Invalid data" (Some issues))), s) ∧
    issues ≠ [] ∧
    (obj_get "title" o = Some (JStr "") → mkIssue ["title"] too_small ∈ issues) ∧
    (obj_get "description" o = Some (JStr "") →
       mkIssue ["description"] too_small ∈ issues).
Proof.
  intros Hempty.
  set (pt := parse_string_min1 "title" (obj_get "title" o)).
  set (pd := parse_string_min1 "description" (obj_get "description" o)).
  set (ps := parse_status_default "status" (obj_get "status" o)).
  assert (Hparse : CreateTaskSchema_parse (JObj o) =
            ZodError (issues_of pt ++ issues_of pd ++ issues_of ps)).
  { unfold CreateTaskSchema_parse. fold pt pd ps.
    destruct Hempty as [H|H].
    - assert (pt = ZodError [mkIssue ["title"] too_small]) as ->
        by (unfold pt; by rewrite H).
      done.
    - assert (pd = ZodError [mkIssue ["description"] too_small]) as ->
        by (unfold pd; by rewrite H).
      by destruct pt. }
  assert (Ht : obj_get "title" o = Some (JStr "") →
               mkIssue ["title"] too_small ∈ issues_of pt ++ issues_of pd ++ issues_of ps).
  { intros H. unfold pt. rewrite H. simpl. apply list_elem_of_here. }
  assert (Hd : obj_get "description" o = Some (JStr "") →
               mkIssue ["description"] too_small ∈ issues_of pt ++ issues_of pd ++ issues_of ps).
  { intros H. apply elem_of_app. right. unfold pd. rewrite H. simpl.
    apply list_elem_of_here. }
  exists (issues_of pt ++ issues_of pd ++ issues_of ps).
  assert (Hc : Controller.createTask (JObj o) s =
            (mkResponse 400 (ErrorBody "Invalid data"
               (Some (issues_of pt ++ issues_of pd ++ issues_of ps))), s))
    by (unfold Controller.createTask; by rewrite Hparse).
  split_and!; try done.
  - change "/api/tasks" with (base_path +:+ "/tasks").
    rewrite app_tasks_route by done. unfold answer. by rewrite Hc.
  - intros Hnil. destruct Hempty as [H|H]; [apply Ht in H|apply Hd in H];
      rewrite Hnil in H; by apply not_elem_of_nil in H.
Qed.

(** The spec's example: an empty title. *)
Lemma createTask_rejects_empty_witness :
  ∃ issues,
    app (mkRequest POST "/api/tasks"
           (JObj [("title", JStr ""); ("description", JStr "x")])) initial =
      (Json (mkResponse 400 (ErrorBody "Invalid data" (Some issues))), initial) ∧
    mkIssue ["title"] too_small ∈ issues.
Proof.
  destruct (createTask_rejects_empty
              [("title", JStr ""); ("description", JStr "x")] initial)
    as (issues & _ & Happ & _ & Ht & _).
  { left. reflexivity. }
  exists issues. split; [exact Happ|]. apply Ht. reflexivity.
Defined.

(** ** Full update *)

(** The PUT handler on a body with a title and a description that are
    not empty, and no [status]: the parse supplies ['pending'], and the
    merge writes it over the stored status. *)
Lemma updateTask_defaults_status id o t d s i task :
  id ≠ "" →
  findIndex id (tasks s) = Some (i, task) →
  obj_get "title" o = Some (JStr t) → t ≠ "" →
  obj_get "description" o = Some (JStr d) → d ≠ "" →
  obj_get "status" o = None →
  Controller.updateTask id (JObj o) s =
    (mkResponse 200 (OneTask (mkTask (task_id task) t d Pending)),
     mkStore (<[i := mkTask (task_id task) t d Pending]> (tasks s)) (nextId s)).
Proof.
  intros Hid Hfind Ht Hte Hd Hde Hs.
  unfold Controller.updateTask, CreateTaskSchema_parse, Service.updateTask.
  rewrite decide_False by done.
  rewrite Ht, Hd, Hs, !parse_string_min1_ok by done. simpl.
  by rewrite Hfind.
Qed.

(** With distinct ids, the first task with the id of a stored task is
    that task. *)
Lemma findIndex_NoDup s i task :
  NoDup (ids s) → tasks s !! i = Some task →
  findIndex (task_id task) (tasks s) = Some (i, task).
Proof.
  intros Hnd Hi. apply findIndex_Some. split_and!; [done..|].
  intros j u Hj Hlt Heq.
  assert (Hi' : ids s !! i = Some (task_id task))
    by (unfold ids; by rewrite list_lookup_fmap, Hi).
  assert (Hj' : ids s !! j = Some (task_id task))
    by (unfold ids; rewrite list_lookup_fmap, Hj; simpl; by rewrite Heq).
  pose proof (NoDup_lookup _ _ _ _ Hnd Hi' Hj'). lia.
Qed.

End HttpFacts.

(** * Properties of the client cache layer *)

Module ClientFacts.

Import Hooks Protocol.

Section Facts.

Context {W : Type}.
Variable fetch : Request → W → Fetched * W.
Variable validateTask : option ResBody → string + Task.

(** ** The network leaves the cache alone *)

Lemma quiet_ret {R} (r : R) : quiet (@ret W R r).
Proof. intros st. split; [done|]. exists []. simpl. by rewrite app_nil_r. Qed.

Lemma quiet_throw {R} e : quiet (@throw W R e).
Proof. intros st. split; [done|]. exists []. simpl. by rewrite app_nil_r. Qed.

Lemma quiet_bind {A B} (m : @M W A) (k : A → @M W B) :
  quiet m → (∀ a, quiet (k a)) → quiet (bind m k).
Proof.
  intros Hm Hk st. unfold bind. destruct (Hm st) as [Hc [reqs Ht]].
  destruct (m st) as [[a|e] st1]; simpl in *.
  - destruct (Hk a st1) as [Hc' [reqs' Ht']]. split; [congruence|].
    exists (reqs ++ reqs'). by rewrite Ht', Ht, fmap_app, app_assoc.
  - split; [done|]. by exists reqs.
Qed.

Lemma quiet_makeRequest r : quiet (makeRequest fetch r).
Proof.
  intros st. unfold makeRequest. destruct (fetch r (world st)) as [f w'].
  split; [done|]. by exists [r].
Qed.

Lemma quiet_validateTaskData data :
  quiet (@validateTaskData W validateTask data).
Proof.
  unfold validateTaskData. destruct (validateTask data);
    [apply quiet_throw|apply quiet_ret].
Qed.

Lemma quiet_attempt {R} n (fn : @M W R) : quiet fn → quiet (attempt n fn).
Proof.
  intros Hfn. induction n as [|n IH]; intros st; simpl.
  - destruct (Hfn st) as [Hc Ht]. by destruct (fn st) as [[a|e] st1].
  - destruct (Hfn st) as [Hc [reqs Ht]].
    destruct (fn st) as [[a|e] st1]; simpl in *.
    + split; [done|]. by exists reqs.
    + destruct (IH st1) as [Hc' [reqs' Ht']]. split; [congruence|].
      exists (reqs ++ reqs'). by rewrite Ht', Ht, fmap_app, app_assoc.
Qed.

Create HintDb quiet.
Local Hint Resolve quiet_ret quiet_throw quiet_makeRequest
  quiet_validateTaskData : quiet.

Lemma quiet_api_createTask d : quiet (api_createTask fetch validateTask d).
Proof. apply quiet_bind; auto with quiet. Qed.

Lemma quiet_api_updateTaskStatus id st :
  quiet (api_updateTaskStatus fetch validateTask id st).
Proof. apply quiet_bind; auto with quiet. Qed.

Lemma quiet_api_updateTask id u : quiet (api_updateTask fetch validateTask id u).
Proof. apply quiet_bind; auto with quiet. Qed.

Lemma quiet_api_deleteTask id : quiet (api_deleteTask fetch id).
Proof. apply quiet_bind; auto with quiet. Qed.

(** ** The optimistic hooks, phase by phase *)

Lemma status_hook :
  optimistic_hook (updateTaskStatusMutation fetch validateTask)
    (λ v, fmap (set_status v.1 v.2)).
Proof.
  split_and!.
  - by intros [id s] st.
  - by intros ctx [r|e] st.
  - intros [id s]. apply quiet_api_updateTaskStatus.
Qed.

Lemma update_hook :
  optimistic_hook (updateTaskMutation fetch validateTask)
    (λ v, fmap (apply_updates v.1 v.2)).
Proof.
  split_and!.
  - by intros [id u] st.
  - by intros ctx [r|e] st.
  - intros [id u]. apply quiet_api_updateTask.
Qed.

Lemma delete_hook :
  optimistic_hook (deleteTaskMutation fetch)
    (λ id, filter (λ task, task_id task ≠ id)).
Proof.
  split_and!.
  - by intros id st.
  - by intros ctx [r|e] st.
  - intros id. apply quiet_api_deleteTask.
Qed.

Lemma optimistic_spec change (st : @State W) :
  (optimistic change st).1 = mkContext (cache st) ∧
  cache (optimistic change st).2 = change <$> cache st ∧
  trace (optimistic change st).2 = trace st ++ [CancelQueries] ∧
  world (optimistic change st).2 = world st.
Proof.
  unfold optimistic. simpl. destruct (cache st) as [l|] eqn:E; simpl.
  - by rewrite E.
  - done.
Qed.

Lemma rollback_spec ctx (st : @State W) :
  cache (rollback ctx st) =
    match ctx ≫= previousTasks with Some p => Some p | None => cache st end ∧
  trace (rollback ctx st) = trace st ∧
  world (rollback ctx st) = world st.
Proof. unfold rollback. by destruct (ctx ≫= previousTasks). Qed.

Lemma refetch_always_spec (st : @State W) :
  cache (refetch_always st) = cache st ∧
  trace (refetch_always st) = trace st ++ [InvalidateQueries] ∧
  world (refetch_always st) = world st.
Proof. done. Qed.

(** A failed optimistic mutation ends with the cache it started from. *)
Lemma optimistic_hook_rollback {V R} (m : @Mutation W V R) change :
  optimistic_hook m change →
  ∀ v st e st', mutateAsync m v st = (Rejected e, st') → cache st' = cache st.
Proof.
  intros (Hbegin & Hsettle & Hquiet) v st e st'. unfold mutateAsync.
  rewrite Hbegin.
  destruct (optimistic_spec (change v) st) as (Hctx & Hc1 & _).
  destruct (optimistic (change v) st) as [ctx st1]. simpl in Hctx, Hc1.
  cbn [fst snd].
  destruct (quiet_attempt mutation_retry _ (Hquiet v) st1) as [Hc2 _].
  destruct (attempt mutation_retry (mutationFn m v) st1) as [res st2].
  simpl in Hc2. intros [= -> <-]. rewrite Hsettle.
  destruct (rollback_spec (Some ctx) st2) as (Hc3 & _).
  destruct (refetch_always_spec (rollback (Some ctx) st2)) as (Hc4 & _).
  rewrite Hc4, Hc3, Hctx. simpl.
  destruct (cache st) as [l|] eqn:E; [done|].
  by rewrite Hc2, Hc1.
Qed.

(** An optimistic mutation ends by invalidating, however it settled. *)
Lemma optimistic_hook_revalidates {V R} (m : @Mutation W V R) change :
  optimistic_hook m change →
  ∀ v st, last (trace (mutateAsync m v st).2) = Some InvalidateQueries.
Proof.
  intros (Hbegin & Hsettle & Hquiet) v st. unfold mutateAsync.
  rewrite Hbegin.
  destruct (optimistic (change v) st) as [ctx st1]. cbn [fst snd].
  destruct (attempt mutation_retry (mutationFn m v) st1) as [res st2].
  cbn [snd fst]. rewrite Hsettle.
  destruct res; simpl; apply last_snoc.
Qed.

(** ** Rollback *)

Lemma optimistic_hook_rolls_back {V R} (m : @Mutation W V R) change :
  optimistic_hook m change → rolls_back m.
Proof.
  intros Hhook v st. pose proof Hhook as (Hbegin & Hsettle & _).
  destruct (optimistic_spec (change v) st) as (Hctx & _).
  split_and!.
  - rewrite Hbegin. cbn [fst]. by rewrite Hctx.
  - by apply (optimistic_hook_rollback m change).
  - intros e l st2 Hl. rewrite Hbegin, Hsettle. cbn [fst].
    destruct (refetch_always_spec
                (rollback (Some (optimistic (change v) st).1) st2)) as (-> & _).
    destruct (rollback_spec (Some (optimistic (change v) st).1) st2) as (-> & _).
    rewrite Hctx. simpl. by rewrite Hl.
Qed.

(** C1. Rollback exactness.  For the update-status, full-update and
    delete mutations, started in any state with cached data S (a list,
    or nothing yet): [onMutate] snapshots S before it applies the
    optimistic change; if the mutation function fails, retry included,
    the state [mutateAsync] leaves has cached data S again; and [onError]
    replaces the cached collection by the snapshot as a whole, whatever
    the cache holds at that moment. *)
Theorem rollback_exact :
  rolls_back (updateTaskStatusMutation fetch validateTask) ∧
  rolls_back (updateTaskMutation fetch validateTask) ∧
  rolls_back (deleteTaskMutation fetch).
Proof.
  split_and!.
  - exact (optimistic_hook_rolls_back _ _ status_hook).
  - exact (optimistic_hook_rolls_back _ _ update_hook).
  - exact (optimistic_hook_rolls_back _ _ delete_hook).
Qed.

(** ** Revalidation *)

Lemma create_phases data (st : @State W) :
  begin (createTaskMutation fetch validateTask) data st = (None, st) ∧
  ∀ res st2,
    settle (createTaskMutation fetch validateTask) None res st2 =
    match res with
    | Fulfilled newTask =>
        mkState (Some (default [] (cache st2) ++ [newTask]))
                (trace st2 ++ [InvalidateQueries]) (world st2)
    | Rejected _ => st2
    end.
Proof. split; [done|]. by intros [newTask|e] st2. Qed.

(** Where the invalidation is scheduled.  The update-status, full-update
    and delete mutations end, for every outcome, with an invalidation of
    the tasks query.  The create mutation ends with an invalidation when
    it succeeds; when it fails it leaves the cache as it was and adds
    nothing but the requests it sent: no invalidation is scheduled. *)
Lemma revalidation_scheduled :
  (∀ v st, last (trace (mutateAsync
              (updateTaskStatusMutation fetch validateTask) v st).2)
           = Some InvalidateQueries) ∧
  (∀ v st, last (trace (mutateAsync
              (updateTaskMutation fetch validateTask) v st).2)
           = Some InvalidateQueries) ∧
  (∀ v st, last (trace (mutateAsync (deleteTaskMutation fetch) v st).2)
           = Some InvalidateQueries) ∧
  (∀ data st,
     match mutateAsync (createTaskMutation fetch validateTask) data st with
     | (Fulfilled _, st') => last (trace st') = Some InvalidateQueries
     | (Rejected _, st') =>
         cache st' = cache st ∧
         ∃ reqs, trace st' = trace st ++ (Sent <$> reqs)
     end).
Proof.
  split_and!.
  - exact (optimistic_hook_revalidates _ _ status_hook).
  - exact (optimistic_hook_revalidates _ _ update_hook).
  - exact (optimistic_hook_revalidates _ _ delete_hook).
  - intros data st. unfold mutateAsync.
    destruct (create_phases data st) as [-> Hsettle].
    destruct (quiet_attempt mutation_retry _ (quiet_api_createTask data) st)
      as [Hc Ht].
    change (mutationFn (createTaskMutation fetch validateTask) data)
      with (api_createTask fetch validateTask data).
    destruct (attempt mutation_retry (api_createTask fetch validateTask data) st)
      as [[newTask|e] st2]; rewrite Hsettle; simpl in *.
    + apply last_snoc.
    + done.
Qed.

(** ** Create is not optimistic *)

Lemma optimistic_hook_applied {V R} (m : @Mutation W V R) change v st l :
  optimistic_hook m change → cache st = Some l →
  applied_before_request m v st l (change v l).
Proof.
  intros (Hbegin & Hsettle & Hquiet) Hl. unfold applied_before_request.
  cbv zeta. unfold mutateAsync. rewrite Hbegin. cbn [fst snd].
  destruct (optimistic_spec (change v) st) as (Hctx & Hc1 & Ht1 & Hw1).
  destruct (optimistic (change v) st) as [ctx st1]. cbn [fst snd] in *.
  destruct (quiet_attempt mutation_retry _ (Hquiet v) st1)
    as [Hc2 [reqs Ht2]].
  destruct (attempt mutation_retry (mutationFn m v) st1) as [res st2].
  cbn [fst snd] in *. rewrite Hl in *. subst ctx.
  split_and!; try done.
  - by rewrite Hc2, Hc1.
  - exists reqs. by rewrite Ht2, Ht1, <- app_assoc.
Qed.

(** C3. The create mutation has no [onMutate]: nothing is done before
    the request, and the cached data stays as it was while the mutation
    function runs, retry included.  If the mutation succeeds, the task the
    server returned is appended to the cached list (to the empty list if
    nothing was cached); if it fails, the cached data is unchanged.  The
    update-status, full-update and delete mutations change the cached
    list in [onMutate], from the snapshot they take after the refetches
    are cancelled and before any request is sent, and the changed list
    stays in the cache while the request is in flight.  The changed list
    has, for update-status, the new status on every task with the id;
    for full-update, the given fields written over those of every task
    with the id; in both, the other fields and the other tasks in place
    as they were; for delete, the tasks with another id, in their
    order. *)
Theorem create_not_optimistic :
  (∀ data (st : @State W),
     let create := createTaskMutation fetch validateTask in
     begin create data st = (None, st) ∧
     cache (attempt mutation_retry (mutationFn create data) st).2 = cache st ∧
     (∀ newTask st', mutateAsync create data st = (Fulfilled newTask, st') →
        cache st' = Some (default [] (cache st) ++ [newTask])) ∧
     (∀ e st', mutateAsync create data st = (Rejected e, st') →
        cache st' = cache st)) ∧
  (∀ id status' (st : @State W) l, cache st = Some l →
     ∃ l',
       applied_before_request (updateTaskStatusMutation fetch validateTask)
         (id, status') st l l' ∧
       length l' = length l ∧
       ∀ i t, l !! i = Some t →
         l' !! i = Some (if decide (task_id t = id)
                         then mkTask (task_id t) (title t) (description t) status'
                         else t)) ∧
  (∀ id updates (st : @State W) l, cache st = Some l →
     ∃ l',
       applied_before_request (updateTaskMutation fetch validateTask)
         (id, updates) st l l' ∧
       length l' = length l ∧
       ∀ i t, l !! i = Some t →
         l' !! i = Some (if decide (task_id t = id)
                         then mkTask (task_id t)
                                (default (title t) (ud_title updates))
                                (default (description t) (ud_description updates))
                                (default (status t) (ud_status updates))
                         else t)) ∧
  (∀ id (st : @State W) l, cache st = Some l →
     applied_before_request (deleteTaskMutation fetch) id st l
       (filter (λ task, task_id task ≠ id) l)).
Proof.
  split_and!.
  - intros data st. cbv zeta.
    destruct (create_phases data st) as [Hbegin Hsettle].
    destruct (quiet_attempt mutation_retry _ (quiet_api_createTask data) st)
      as [Hc _].
    split_and!; [done|exact Hc| |].
    + intros newTask st'. unfold mutateAsync. rewrite Hbegin.
      change (mutationFn (createTaskMutation fetch validateTask) data)
        with (api_createTask fetch validateTask data).
      destruct (attempt mutation_retry (api_createTask fetch validateTask data) st)
        as [res st2]. intros [= -> <-]. rewrite Hsettle.
      simpl in *. by rewrite Hc.
    + intros e st'. unfold mutateAsync. rewrite Hbegin.
      change (mutationFn (createTaskMutation fetch validateTask) data)
        with (api_createTask fetch validateTask data).
      destruct (attempt mutation_retry (api_createTask fetch validateTask data) st)
        as [res st2]. intros [= -> <-]. rewrite Hsettle.
      exact Hc.
  - intros id status' st l Hl. exists (set_status id status' <$> l).
    split_and!.
    + exact (optimistic_hook_applied _ _ (id, status') st l status_hook Hl).
    + apply length_fmap.
    + intros i t Hi. by rewrite list_lookup_fmap, Hi.
  - intros id updates st l Hl. exists (apply_updates id updates <$> l).
    split_and!.
    + exact (optimistic_hook_applied _ _ (id, updates) st l update_hook Hl).
    + apply length_fmap.
    + intros i t Hi. by rewrite list_lookup_fmap, Hi.
  - intros id st l Hl.
    exact (optimistic_hook_applied _ _ id st l delete_hook Hl).
Qed.

(** ** Toggle *)

Lemma sends_attempt {R} n (fn : @M W R) r :
  sends fn r →
  ∀ st, ∃ k, (1 ≤ k ≤ S n)%nat ∧
    trace (attempt n fn st).2 = trace st ++ replicate k (Sent r).
Proof.
  intros Hfn. induction n as [|n IH]; intros st; simpl.
  - exists 1%nat. split; [lia|]. specialize (Hfn st).
    by destruct (fn st) as [[a|e] st1].
  - specialize (Hfn st). destruct (fn st) as [[a|e] st1]; simpl in *.
    + exists 1%nat. split; [lia|done].
    + destruct (IH st1) as (k & Hk & Ht). exists (S k). split; [lia|].
      rewrite Ht, Hfn. by rewrite <- app_assoc.
Qed.

Lemma sends_api_updateTaskStatus id s :
  sends (api_updateTaskStatus fetch validateTask id s)
        (updateTaskStatus_request id s).
Proof.
  intros st. unfold api_updateTaskStatus, bind, makeRequest.
  destruct (fetch _ (world st)) as [f w'].
  destruct (makeRequest_result f) as [data|e]; [|done].
  unfold validateTaskData. by destruct (validateTask data).
Qed.

(** The trace of an optimistic mutation: the cancellation, the request
    once per attempt, the invalidation. *)
Lemma optimistic_hook_trace {V R} (m : @Mutation W V R) change r v :
  optimistic_hook m change → sends (mutationFn m v) r →
  ∀ st, ∃ k, (1 ≤ k ≤ 2)%nat ∧
    trace (mutateAsync m v st).2 =
      trace st ++ [CancelQueries] ++ replicate k (Sent r) ++ [InvalidateQueries].
Proof.
  intros (Hbegin & Hsettle & _) Hsends st. unfold mutateAsync.
  rewrite Hbegin.
  destruct (optimistic_spec (change v) st) as (_ & _ & Ht1 & _).
  destruct (optimistic (change v) st) as [ctx st1]. cbn [fst snd] in *.
  destruct (sends_attempt mutation_retry _ _ Hsends st1) as (k & Hk & Ht2).
  destruct (attempt mutation_retry (mutationFn m v) st1) as [res st2].
  cbn [fst snd] in *. exists k. split; [exact Hk|]. rewrite Hsettle.
  destruct res as [a|e].
  - destruct (refetch_always_spec st2) as (_ & -> & _).
    rewrite Ht2, Ht1. by rewrite <- !app_assoc.
  - destruct (refetch_always_spec (rollback (Some ctx) st2)) as (_ & -> & _).
    destruct (rollback_spec (Some ctx) st2) as (_ & -> & _).
    rewrite Ht2, Ht1. by rewrite <- !app_assoc.
Qed.

(** C4. Toggle correctness.  For an id in the cached list (the empty
    list if nothing is cached), [toggleTaskStatus] takes the first cached
    task with the id, computes the opposite of its status ('pending'
    gives 'done', 'done' gives 'pending'), and is the update-status
    mutation with that id and that value: the refetches are cancelled, the
    PATCH request with the computed status is sent (once, or twice when
    the first attempt fails), and the query is invalidated.  For an id
    that is not in the cached list it rejects with the error "Task not
    found" and the state is untouched: nothing is sent. *)
Theorem toggle_correct (id : string) (st : @State W) :
  let currentTasks := default [] (cache st) in
  (id ∈ task_id <$> currentTasks →
     ∃ i task,
       currentTasks !! i = Some task ∧ task_id task = id ∧
       (∀ j u, currentTasks !! j = Some u → (j < i)%nat → task_id u ≠ id) ∧
       let newStatus := opposite (status task) in
       toggleTaskStatus fetch validateTask id st =
         bind (mutateAsync (updateTaskStatusMutation fetch validateTask)
                           (id, newStatus))
              (λ _, ret ()) st ∧
       ∃ k, (1 ≤ k ≤ 2)%nat ∧
         trace (toggleTaskStatus fetch validateTask id st).2 =
           trace st ++ [CancelQueries] ++
           replicate k (Sent (updateTaskStatus_request id newStatus)) ++
           [InvalidateQueries])
  ∧
  (id ∉ task_id <$> currentTasks →
     toggleTaskStatus fetch validateTask id st =
       (Rejected (Error "Task not found"), st)).
Proof.
  intros currentTasks. split.
  - intros Hin. destruct (StoreFacts.findIndex_elem _ _ Hin) as (i & task & Hfind).
    pose proof Hfind as (Hi & Hid & Hfirst)%StoreFacts.findIndex_Some.
    exists i, task. split_and!; [done..|]. cbv zeta.
    assert (Htoggle : toggleTaskStatus fetch validateTask id st =
              bind (mutateAsync (updateTaskStatusMutation fetch validateTask)
                                (id, opposite (status task)))
                   (λ _, ret ()) st).
    { unfold toggleTaskStatus at 1. unfold bind at 1. cbn [getQueryData].
      fold currentTasks. unfold findIndex in Hfind. rewrite Hfind. cbn [fmap option_fmap option_map snd].
      by destruct (status task). }
    split; [exact Htoggle|]. rewrite Htoggle. unfold bind.
    destruct (optimistic_hook_trace _ _
                (updateTaskStatus_request id (opposite (status task)))
                (id, opposite (status task)) status_hook
                (sends_api_updateTaskStatus id (opposite (status task))) st)
      as (k & Hk & Ht).
    exists k. split; [exact Hk|].
    by destruct (mutateAsync (updateTaskStatusMutation fetch validateTask)
                   (id, opposite (status task)) st) as [[r|e] st'].
  - intros Hnot. apply StoreFacts.findIndex_None in Hnot.
    unfold toggleTaskStatus, bind. cbn [getQueryData]. fold currentTasks.
    unfold findIndex in Hnot. by rewrite Hnot.
Qed.

End Facts.

(** Rollback at work: with the network down, deleting the cached sample
    task rejects and the cache is as before. *)
Lemma rollback_exact_witness :
  let st := Scenario.cached [Scenario.sample] () in
  cache (mutateAsync (deleteTaskMutation Scenario.offline) "1" st).2 = cache st.
Proof.
  intros st.
  destruct (rollback_exact Scenario.offline Scenario.accept_task)
    as (_ & _ & Hdelete).
  destruct (Hdelete "1" st) as (_ & Hfail & _).
  apply (Hfail (APIError "Network error occurred" 0)).
  reflexivity.
Defined.

(** Create at work against the server: nothing is cached optimistically,
    and the task the server returned is appended on success.  The status
    update of the sample task at work: the cache holds the task as done
    before the request is sent. *)
Lemma create_not_optimistic_witness :
  let st := Scenario.cached [Scenario.sample] initial in
  let create := createTaskMutation Wire.server_fetch Scenario.accept_task in
  let data := mkCreateTaskData "Buy milk" "2%" None in
  let update := updateTaskStatusMutation Wire.server_fetch Scenario.accept_task in
  begin create data st = (None, st) ∧
  cache (mutateAsync create data st).2 =
    Some [Scenario.sample; mkTask "2" "Buy milk" "2%" Pending] ∧
  ∃ l', cache (begin update ("1", Done) st).2 = Some l' ∧
        trace (begin update ("1", Done) st).2 = [CancelQueries] ∧
        l' !! 0%nat = Some (mkTask "1" "Sample Task" "This is a sample task" Done).
Proof.
  intros st create data update.
  destruct (create_not_optimistic Wire.server_fetch Scenario.accept_task)
    as (Hcreate & Hstatus & _).
  destruct (Hcreate data st) as (Hbegin & _ & Hok & _).
  split_and!; [exact Hbegin| |].
  - apply (Hok (mkTask "2" "Buy milk" "2%" Pending)
               (mutateAsync create data st).2).
    reflexivity.
  - destruct (Hstatus "1" Done st [Scenario.sample] eq_refl)
      as (l' & (_ & Hcache & Htrace & _) & _ & Hat).
    exists l'. split_and!; [exact Hcache|exact Htrace|].
    by apply (Hat 0%nat Scenario.sample).
Defined.

(** Toggle at work: the cached sample task is pending, so the request
    asks for done; an id that is not cached rejects at once. *)
Lemma toggle_correct_witness :
  let st := Scenario.cached [Scenario.sample] initial in
  (∃ k, trace (toggleTaskStatus Wire.server_fetch Scenario.accept_task "1" st).2 =
          [CancelQueries] ++
          replicate k (Sent (updateTaskStatus_request "1" Done)) ++
          [InvalidateQueries]) ∧
  toggleTaskStatus Wire.server_fetch Scenario.accept_task "9" st =
    (Rejected (Error "Task not found"), st).
Proof.
  intros st.
  destruct (toggle_correct Wire.server_fetch Scenario.accept_task "1" st)
    as [Hpresent _].
  destruct (toggle_correct Wire.server_fetch Scenario.accept_task "9" st)
    as [_ Habsent].
  split.
  - destruct Hpresent as (i & task & Hi & _ & _ & _ & k & _ & Ht);
      [compute_done|].
    destruct i as [|i]; [|destruct i; discriminate Hi].
    injection Hi as <-. by exists k.
  - apply Habsent. compute_done.
Defined.

End ClientFacts.

(** * The client in front of the server *)

Module EndToEnd.

Import Hooks Wire TaskItem Ops Paths Protocol StoreFacts HttpFacts ClientFacts.

Section Facts.

Variable validateTask : option ResBody → string + Task.

(** ** Single-task lookup *)




End Facts.

(** ** Saving an edited task *)

Section Save.

Variable validateTask : option ResBody → string + Task.
Variable trim : string → string.
Variable validateUpdateTask : UpdateTaskData → option UpdateTaskData.

(** Writing a task with the same id at the index found leaves the index
    found. *)
Lemma findIndex_insert id l i u t' :
  findIndex id l = Some (i, u) → task_id t' = id →
  findIndex id (<[i := t']> l) = Some (i, t').
Proof.
  intros (Hi & Hid & Hfirst)%findIndex_Some Hid'. apply findIndex_Some.
  split_and!; [|done|].
  - apply list_lookup_insert_eq. by eapply lookup_lt_Some.
  - intros j v Hj Hlt. rewrite list_lookup_insert_ne in Hj by lia.
    by eapply Hfirst.
Qed.

(** The PUT request of the client with a title and a description, on a
    store that has a task with the id. *)
Lemma put_fetch id t d s i stored :
  plain_id id → findIndex id (tasks s) = Some (i, stored) →
  t ≠ "" → d ≠ "" →
  server_fetch
    (updateTask_request id (mkUpdateTaskData (Some t) (Some d) None)) s =
  (Got 200 "OK" (JsonBody (OneTask (mkTask (task_id stored) t d Pending))),
   mkStore (<[i := mkTask (task_id stored) t d Pending]> (tasks s)) (nextId s)).
Proof.
  intros Hid Hfind Ht Hd. unfold server_fetch, updateTask_request.
  rewrite app_task_route by done. unfold answer.
  change (stringify_update _)
    with (JObj [("title", JStr t); ("description", JStr d)]).
  rewrite (updateTask_defaults_status id _ t d s i stored);
    [done|by destruct Hid|done..].
Qed.

(** One run of [taskApi.updateTask] with such a request leaves the store
    with the task set to pending, whatever the validation of the response
    says. *)
Lemma put_run id t d i stored (st : @State Store) :
  plain_id id → findIndex id (tasks (world st)) = Some (i, stored) →
  t ≠ "" → d ≠ "" →
  world (api_updateTask server_fetch validateTask id
           (mkUpdateTaskData (Some t) (Some d) None) st).2 =
  mkStore (<[i := mkTask (task_id stored) t d Pending]> (tasks (world st)))
          (nextId (world st)).
Proof.
  intros Hid Hfind Ht Hd. unfold api_updateTask, bind, makeRequest.
  rewrite (put_fetch id t d (world st) i stored) by done.
  change (makeRequest_result _)
    with (@Fulfilled (option ResBody)
            (Some (OneTask (mkTask (task_id stored) t d Pending)))).
  unfold validateTaskData. by case_match.
Qed.

(** With its retry: a second run finds the task already written and
    writes the same task again. *)
Lemma put_attempt id t d i stored (st : @State Store) :
  plain_id id → findIndex id (tasks (world st)) = Some (i, stored) →
  t ≠ "" → d ≠ "" →
  world (attempt mutation_retry
           (api_updateTask server_fetch validateTask id
              (mkUpdateTaskData (Some t) (Some d) None)) st).2 =
  mkStore (<[i := mkTask (task_id stored) t d Pending]> (tasks (world st)))
          (nextId (world st)).
Proof.
  intros Hid Hfind Ht Hd. unfold mutation_retry. cbn [attempt].
  pose proof (put_run id t d i stored st Hid Hfind Ht Hd) as Hrun.
  destruct (api_updateTask server_fetch validateTask id
              (mkUpdateTaskData (Some t) (Some d) None) st)
    as [[r|e] st1]; [exact Hrun|].
  cbn [snd] in Hrun.
  assert (Hid' : task_id stored = id)
    by (by apply findIndex_Some in Hfind as (_ & ? & _)).
  assert (Hfind' : findIndex id (tasks (world st1)) =
            Some (i, mkTask (task_id stored) t d Pending)).
  { rewrite Hrun. cbn [tasks]. by eapply findIndex_insert. }
  pose proof (put_run id t d i _ st1 Hid Hfind' Ht Hd) as Hrun'.
  destruct (api_updateTask server_fetch validateTask id
              (mkUpdateTaskData (Some t) (Some d) None) st1) as [res st2].
  destruct res; cbn [snd] in *; rewrite Hrun', Hrun; cbn [tasks nextId task_id];
    by rewrite list_insert_insert_eq.
Qed.

(** The callbacks of the update mutation do not touch the world. *)
Lemma updateTask_world id updates (st : @State Store) :
  ∃ st1, world st1 = world st ∧
    world (updateTask server_fetch validateTask id updates st).2 =
    world (attempt mutation_retry
             (api_updateTask server_fetch validateTask id updates) st1).2.
Proof.
  unfold updateTask, mutateAsync.
  destruct (update_hook server_fetch validateTask) as (Hbegin & Hsettle & _).
  rewrite Hbegin.
  destruct (optimistic_spec
              ((λ v : string * UpdateTaskData, fmap (apply_updates v.1 v.2))
                 (id, updates)) st) as (_ & _ & _ & Hw).
  destruct (optimistic _ st) as [ctx st1]. cbn [fst snd] in *.
  exists st1. split; [exact Hw|].
  change (mutationFn (updateTaskMutation server_fetch validateTask) (id, updates))
    with (api_updateTask server_fetch validateTask id updates).
  destruct (attempt mutation_retry
              (api_updateTask server_fetch validateTask id updates) st1)
    as [res st2]. cbn [fst snd]. rewrite Hsettle.
  destruct res as [r|e]; [done|].
  destruct (refetch_always_spec (rollback (Some ctx) st2)) as (_ & _ & ->).
  by destruct (rollback_spec (Some ctx) st2) as (_ & _ & ->).
Qed.

(** C5. A full update without a status resets a done task.  Let the
    store be one reached from the initial store and hold, at some index,
    a task whose status is 'done'.  A PUT on the id of that task whose
    body has a title and a description that are not empty, and no
    status, is answered 200 with the task under its new title and
    description and with the status 'pending', and the store holds that
    task at the index: [CreateTaskSchema] supplies 'pending' for the
    missing status and the parsed object is merged over the stored
    task.  The same holds of the application on PUT /api/tasks/{id} with
    the body made of the two fields.  In particular the save path of the
    client, [handleSave], when the validation hands on a title and a
    description and no status, leaves the server's task at 'pending'. *)
Theorem put_without_status_resets
    (ops : list Op) (i : nat) (stored : Task) (t d : string) :
  let s := run initial ops in
  let id := task_id stored in
  let reset := mkTask id t d Pending in
  let s' := mkStore (<[i := reset]> (tasks s)) (nextId s) in
  tasks s !! i = Some stored → status stored = Done → t ≠ "" → d ≠ "" →
  (∀ o, obj_get "title" o = Some (JStr t) →
        obj_get "description" o = Some (JStr d) →
        obj_get "status" o = None →
        Controller.updateTask id (JObj o) s = (mkResponse 200 (OneTask reset), s')) ∧
  app (mkRequest PUT ("/api/tasks/" +:+ id)
         (JObj [("title", JStr t); ("description", JStr d)])) s =
    (Json (mkResponse 200 (OneTask reset)), s') ∧
  (∀ task editTitle editDescription (st : @State Store),
     task_id task = id → world st = s →
     validateUpdateTask (edited trim editTitle editDescription) =
       Some (mkUpdateTaskData (Some t) (Some d) None) →
     world (handleSave server_fetch validateTask trim validateUpdateTask
              task editTitle editDescription st) = s') ∧
  tasks s' !! i = Some reset ∧ status reset = Pending.
Proof.
  intros s id reset s' Hi Hdone Ht Hd.
  destruct (run_invariant ops initial) as [Hnd _]; [apply initial_invariant..|].
  fold s in Hnd.
  assert (Hplain : plain_id id).
  { apply (reachable_plain ops). fold s. unfold ids.
    apply list_elem_of_fmap. exists stored. split; [done|].
    by eapply list_elem_of_lookup_2. }
  assert (Hfind : findIndex id (tasks s) = Some (i, stored))
    by (by apply findIndex_NoDup).
  assert (Hctl : ∀ o, obj_get "title" o = Some (JStr t) →
            obj_get "description" o = Some (JStr d) →
            obj_get "status" o = None →
            Controller.updateTask id (JObj o) s =
              (mkResponse 200 (OneTask reset), s')).
  { intros o Hot Hod Hos.
    apply (updateTask_defaults_status id o t d s i stored);
      [by destruct Hplain|done..]. }
  split_and!; [exact Hctl| | | |done].
  - change ("/api/tasks/" +:+ id) with (base_path +:+ "/tasks/" +:+ id).
    rewrite app_task_route by done. unfold answer. by rewrite Hctl.
  - intros task editTitle editDescription st Htask Hworld Hvalid.
    unfold handleSave. rewrite Hvalid, Htask.
    destruct (updateTask_world id (mkUpdateTaskData (Some t) (Some d) None) st)
      as (st1 & Hw1 & ->).
    rewrite (put_attempt id t d i stored st1); rewrite ?Hw1, ?Hworld; done.
  - cbn [tasks s']. apply list_lookup_insert_eq. by eapply lookup_lt_Some.
Qed.

End Save.

(** C2.  A create that fails schedules no revalidation.  The cache holds
    the sample task and the responses are lost on the way back.  The
    create mutation sends its POST twice and rejects; its trace holds no
    invalidation; the cache still holds the sample task alone, while the
    server now holds three tasks: nothing is scheduled that would end
    the difference.  Under the same network the delete mutation, like
    the other two optimistic mutations, ends with the invalidation. *)
Lemma create_failure_stays_stale :
  let st := Scenario.cached [Scenario.sample] initial in
  let data := mkCreateTaskData "Buy milk" "2%" None in
  let created :=
    mutateAsync (createTaskMutation Scenario.lost_response Scenario.accept_task)
                data st in
  let deleted :=
    mutateAsync (deleteTaskMutation Scenario.lost_response) "1" st in
  created.1 = Rejected (APIError "Network error occurred" 0) ∧
  trace created.2 =
    [Sent (createTask_request data); Sent (createTask_request data)] ∧
  (InvalidateQueries ∉ trace created.2) ∧
  cache created.2 = Some [Scenario.sample] ∧
  tasks (world created.2) =
    [Scenario.sample; mkTask "2" "Buy milk" "2%" Pending;
     mkTask "3" "Buy milk" "2%" Pending] ∧
  deleted.1 = Rejected (APIError "Network error occurred" 0) ∧
  last (trace deleted.2) = Some InvalidateQueries.
Proof.
  intros st data created deleted.
  assert (Ht : trace created.2 =
    [Sent (createTask_request data); Sent (createTask_request data)])
    by reflexivity.
  split_and!; try reflexivity.
  rewrite Ht, !not_elem_of_cons. split_and!; [done..|apply not_elem_of_nil].
Qed.



(** The save path at work: the sample task is set to done, then edited
    in the client; the server's task is pending again. *)
Lemma put_without_status_resets_witness :
  let s := run initial [UpdateStatus "1" (mkUpdateTask Done)] in
  let shown := mkTask "1" "Sample Task" "This is a sample task" Done in
  tasks s = [shown] ∧
  world (handleSave server_fetch Scenario.accept_task
           Scenario.trim_spaces Scenario.accept_update
           shown " Sample  " "edited" (Scenario.cached [shown] s)) =
    mkStore [mkTask "1" "Sample" "edited" Pending] 2.
Proof.
  intros s shown. split; [reflexivity|].
  destruct (put_without_status_resets Scenario.accept_task
              Scenario.trim_spaces Scenario.accept_update
              [UpdateStatus "1" (mkUpdateTask Done)] 0 shown "Sample" "edited")
    as (_ & _ & Hsave & _); [reflexivity|reflexivity|done|done|].
  apply Hsave; reflexivity.
Defined.

(** ** The scenario of the specification, end to end *)

(** The store starts with the sample task; the client lists it, creates
    "Buy milk", toggles the sample task and deletes the new one. *)
Example scenario :
  let fetch := server_fetch in
  let valid := Scenario.accept_task in
  let listed := makeRequest fetch getTasks_request (mkState None [] initial) in
  let st1 := mkState (Some (tasks initial)) (trace listed.2) (world listed.2) in
  let created := createTask fetch valid (mkCreateTaskData "Buy milk" "2%" None) st1 in
  let toggled := toggleTaskStatus fetch valid "1" created.2 in
  let deleted := deleteTask fetch "2"
                   (mkState (Some (tasks (world toggled.2)))
                            (trace toggled.2) (world toggled.2)) in
  listed.1 = Fulfilled (Some (TaskList [Scenario.sample])) ∧
  created.1 = Fulfilled (mkTask "2" "Buy milk" "2%" Pending) ∧
  tasks (world created.2) =
    [Scenario.sample; mkTask "2" "Buy milk" "2%" Pending] ∧
  toggled.1 = Fulfilled () ∧
  deleted.1 = Fulfilled () ∧
  world deleted.2 =
    mkStore [mkTask "1" "Sample Task" "This is a sample task" Done] 3 ∧
  cache deleted.2 =
    Some [mkTask "1" "Sample Task" "This is a sample task" Done].
Proof. vm_compute. by split_and!. Qed.

End EndToEnd.

(** * Further properties of the task store *)

Module StoreLaws.

Import Ops Requests StoreFacts HttpFacts.

(** ** Lookups *)

Lemma list_find_delete_other {A} (P : A → Prop) `{!∀ x, Decision (P x)} l i x :
  l !! i = Some x → ¬ P x →
  snd <$> list_find P (delete i l) = snd <$> list_find P l.
Proof.
  revert i. induction l as [|y l IH]; intros i Hi Hx; [done|].
  destruct i as [|i]; simpl in *.
  - injection Hi as ->. rewrite decide_False by done.
    by destruct (list_find P l) as [[j z]|].
  - destruct (decide (P y)); [done|].
    specialize (IH i Hi Hx).
    destruct (list_find P (delete i l)) as [[j z]|],
             (list_find P l) as [[j' z']|]; simpl in *; congruence.
Qed.

Lemma list_find_insert_other {A} (P : A → Prop) `{!∀ x, Decision (P x)} l i x y :
  l !! i = Some x → ¬ P x → ¬ P y →
  snd <$> list_find P (<[i := y]> l) = snd <$> list_find P l.
Proof.
  revert i. induction l as [|z l IH]; intros i Hi Hx Hy; [done|].
  destruct i as [|i]; simpl in *.
  - injection Hi as ->. by rewrite !decide_False by done.
  - destruct (decide (P z)); [done|].
    specialize (IH i Hi Hx Hy).
    destruct (list_find P (<[i := y]> l)) as [[j u]|],
             (list_find P l) as [[j' u']|]; simpl in *; congruence.
Qed.

Lemma findIndex_snoc_fresh id l t :
  id ∉ task_id <$> l → task_id t = id →
  findIndex id (l ++ [t]) = Some (length l, t).
Proof.
  intros Hfresh Hid. apply findIndex_Some. split_and!.
  - by rewrite lookup_app_r, Nat.sub_diag.
  - done.
  - intros j u Hj Hlt Hu. rewrite lookup_app_l in Hj by done.
    apply Hfresh. apply list_elem_of_fmap. exists u. split; [done|].
    by eapply list_elem_of_lookup_2.
Qed.

Lemma findIndex_snoc_old id l t :
  task_id t ≠ id → snd <$> findIndex id (l ++ [t]) = snd <$> findIndex id l.
Proof.
  intros Hne. unfold findIndex. induction l as [|y l IH]; simpl.
  - by rewrite decide_False.
  - destruct (decide (task_id y = id)); [done|].
    destruct (list_find _ (l ++ [t])) as [[j u]|],
             (list_find _ l) as [[j' u']|]; simpl in *; congruence.
Qed.

(** The id a create assigns in a reached store is not in the store. *)
Lemma reachable_fresh ops :
  toString (nextId (run initial ops)) ∉ ids (run initial ops).
Proof.
  destruct (run_invariant ops initial) as [_ Hbelow];
    [apply initial_invariant..|].
  intros Hin. destruct (Hbelow _ Hin) as (k & Hk%(inj toString) & Hlt). lia.
Qed.

(** X1. Create and lookup.  In a store reached from the initial store,
    [createTask] appends the new task behind the tasks that are there,
    which keep their positions; the new task is found under its id by
    [getTaskById], and every other id is looked up as before. *)
Theorem createTask_lookup (ops : list Op) (d : CreateTask) :
  let s := run initial ops in
  let new := (Service.createTask d s).1 in
  let s' := (Service.createTask d s).2 in
  new = mkTask (toString (nextId s)) (ct_title d) (ct_description d) (ct_status d) ∧
  Service.getAllTasks s' = Service.getAllTasks s ++ [new] ∧
  (∀ i t, tasks s !! i = Some t → tasks s' !! i = Some t) ∧
  Service.getTaskById (task_id new) s = None ∧
  Service.getTaskById (task_id new) s' = Some new ∧
  (∀ id, id ≠ task_id new → Service.getTaskById id s' = Service.getTaskById id s).
Proof.
  intros s new s'. pose proof (reachable_fresh ops) as Hfresh. fold s in Hfresh.
  split_and!; try done.
  - intros i t Hi. unfold s'. simpl. by apply lookup_app_l_Some.
  - unfold Service.getTaskById. apply findIndex_None in Hfresh. unfold new. simpl.
    by rewrite Hfresh.
  - unfold Service.getTaskById, s', new. simpl.
    by erewrite findIndex_snoc_fresh; [|exact Hfresh|].
  - intros id Hne. unfold Service.getTaskById, s'. simpl.
    apply findIndex_snoc_old. simpl. by intros <-.
Qed.

(** X2. Create, then delete.  Deleting the task a create has just added
    to a reached store succeeds and gives back the list of tasks as it
    was before the create; the id counter stays advanced, so the id is
    not given out again. *)
Theorem create_then_delete (ops : list Op) (d : CreateTask) :
  let s := run initial ops in
  let created := Service.createTask d s in
  Service.deleteTask (task_id created.1) created.2 =
    (true, mkStore (tasks s) (nextId s + 1)).
Proof.
  intros s created. pose proof (reachable_fresh ops) as Hfresh. fold s in Hfresh.
  unfold Service.deleteTask, created. simpl.
  erewrite findIndex_snoc_fresh; [|exact Hfresh|done]. f_equal. f_equal.
  rewrite delete_take_drop, take_app_length.
  rewrite drop_app_ge by (simpl; lia).
  replace (S (length (tasks s)) - length (tasks s))%nat with 1%nat by lia.
  simpl. by rewrite app_nil_r.
Qed.

(** ** Full update *)

(** X3. Frame property of the full update.  For an id in the store,
    [updateTask] replaces the task at the first index holding the id by
    a task with the same id and the title, description and status given;
    every other position, the length, the list of ids and the counter are
    as they were, and the task returned is the one now stored.  For an id
    that is not in the store the result is null and the store is
    unchanged. *)
Theorem updateTask_frame (id : string) (d : CreateTask) (s : Store) :
  (id ∈ ids s →
     ∃ i t,
       tasks s !! i = Some t ∧ task_id t = id ∧
       let t' := mkTask id (ct_title d) (ct_description d) (ct_status d) in
       let s' := mkStore (<[i := t']> (tasks s)) (nextId s) in
       Service.updateTask id d s = (Some t', s') ∧
       tasks s' !! i = Some t' ∧
       (∀ j, j ≠ i → tasks s' !! j = tasks s !! j) ∧
       length (tasks s') = length (tasks s) ∧
       ids s' = ids s)
  ∧
  (id ∉ ids s → Service.updateTask id d s = (None, s)).
Proof.
  split.
  - intros Hin. destruct (findIndex_elem _ _ Hin) as (i & t & Hfind).
    pose proof Hfind as (Hi & Hid & _)%findIndex_Some.
    exists i, t. cbv zeta. split_and!; try done.
    + unfold Service.updateTask, merge_all. by rewrite Hfind, Hid.
    + cbn [tasks]. apply list_lookup_insert_eq. by eapply lookup_lt_Some.
    + intros j Hj. by apply list_lookup_insert_ne.
    + apply length_insert.
    + unfold ids; simpl. rewrite list_fmap_insert; simpl.
      apply list_insert_id. by rewrite list_lookup_fmap, Hi; simpl; rewrite Hid.
  - intros Hnot. apply findIndex_None in Hnot.
    unfold Service.updateTask. by rewrite Hnot.
Qed.

(** The full update at work on a store of two tasks. *)
Lemma updateTask_frame_witness :
  let s := (Service.createTask (mkCreateTask "Buy milk" "2%" Pending) initial).2 in
  Service.updateTask "2" (mkCreateTask "Buy oat milk" "1l" Done) s =
    (Some (mkTask "2" "Buy oat milk" "1l" Done),
     mkStore [mkTask "1" "Sample Task" "This is a sample task" Pending;
              mkTask "2" "Buy oat milk" "1l" Done] 3) ∧
  Service.updateTask "9" (mkCreateTask "Buy oat milk" "1l" Done) s = (None, s).
Proof.
  intros s. split.
  - destruct (proj1 (updateTask_frame "2" (mkCreateTask "Buy oat milk" "1l" Done) s))
      as (i & t & Hi & Hid & H); [compute_done|].
    cbv zeta in H. destruct H as (-> & _).
    destruct i as [|[|i]]; simpl in Hi; [|reflexivity|discriminate Hi].
    injection Hi as <-. discriminate Hid.
  - apply (proj2 (updateTask_frame "9" (mkCreateTask "Buy oat milk" "1l" Done) s)).
    compute_done.
Defined.

(** X4. Lookup after an operation.  After a status update or a full
    update of an id, [getTaskById] of that id gives the task the
    operation returned, and after a delete in a store with distinct ids
    it gives nothing; the lookup of any other id is the same before and
    after each of the three operations. *)
Theorem lookup_after (id : string) (s : Store) :
  (∀ u, Service.getTaskById id (Service.updateTaskStatus id u s).2 =
        (Service.updateTaskStatus id u s).1) ∧
  (∀ d, Service.getTaskById id (Service.updateTask id d s).2 =
        (Service.updateTask id d s).1) ∧
  (NoDup (ids s) → Service.getTaskById id (Service.deleteTask id s).2 = None) ∧
  (∀ id', id' ≠ id →
     (∀ u, Service.getTaskById id' (Service.updateTaskStatus id u s).2 =
           Service.getTaskById id' s) ∧
     (∀ d, Service.getTaskById id' (Service.updateTask id d s).2 =
           Service.getTaskById id' s) ∧
     Service.getTaskById id' (Service.deleteTask id s).2 =
       Service.getTaskById id' s).
Proof.
  unfold Service.getTaskById, Service.updateTaskStatus, Service.updateTask,
    Service.deleteTask.
  destruct (findIndex id (tasks s)) as [[i t]|] eqn:Hfind; cbn [fst snd tasks].
  - pose proof Hfind as (Hi & Hid & _)%findIndex_Some.
    split_and!.
    + intros u. by erewrite EndToEnd.findIndex_insert.
    + intros d. by erewrite EndToEnd.findIndex_insert.
    + intros Hnd. apply fmap_None, findIndex_None.
      by eapply ids_delete_fresh.
    + intros id' Hne. split_and!.
      * intros u. unfold findIndex.
        apply (list_find_insert_other _ _ _ _ _ Hi); simpl; congruence.
      * intros d. unfold findIndex.
        apply (list_find_insert_other _ _ _ _ _ Hi); simpl; congruence.
      * unfold findIndex. apply (list_find_delete_other _ _ _ _ Hi). congruence.
  - rewrite Hfind. by split_and!.
Qed.

(** Lookups around a delete in a store of two tasks. *)
Lemma lookup_after_witness :
  let s := (Service.createTask (mkCreateTask "Buy milk" "2%" Pending) initial).2 in
  Service.getTaskById "2" (Service.deleteTask "2" s).2 = None ∧
  Service.getTaskById "1" (Service.deleteTask "2" s).2 = Service.getTaskById "1" s.
Proof.
  intros s. destruct (lookup_after "2" s) as (_ & _ & Hgone & Hother). split.
  - apply Hgone. compute_done.
  - apply (Hother "1"). done.
Defined.

(** ** Repeated updates *)

(** X5. The last update wins.  Two status updates of the same id in a
    row give the result and the store of the second alone, and so do two
    full updates; a status update to the status the task has leaves the
    store as it is. *)
Theorem last_update_wins (id : string) (s : Store) :
  (∀ u1 u2,
     Service.updateTaskStatus id u2 (Service.updateTaskStatus id u1 s).2 =
     Service.updateTaskStatus id u2 s) ∧
  (∀ d1 d2,
     Service.updateTask id d2 (Service.updateTask id d1 s).2 =
     Service.updateTask id d2 s) ∧
  (∀ t u, Service.getTaskById id s = Some t → ut_status u = status t →
     (Service.updateTaskStatus id u s).2 = s).
Proof.
  unfold Service.getTaskById.
  destruct (findIndex id (tasks s)) as [[i t]|] eqn:Hfind.
  - pose proof Hfind as (Hi & Hid & _)%findIndex_Some. split_and!.
    + intros u1 u2. unfold Service.updateTaskStatus at 2. rewrite Hfind.
      unfold Service.updateTaskStatus. cbn [snd tasks nextId].
      erewrite EndToEnd.findIndex_insert; [|exact Hfind|done].
      by rewrite Hfind, list_insert_insert_eq.
    + intros d1 d2. unfold Service.updateTask at 2. rewrite Hfind.
      unfold Service.updateTask. cbn [snd tasks nextId].
      erewrite EndToEnd.findIndex_insert; [|exact Hfind|done].
      by rewrite Hfind, list_insert_insert_eq.
    + intros t0 u [= <-] Hu. unfold Service.updateTaskStatus. rewrite Hfind.
      cbn [snd]. destruct s as [l n]. cbn [tasks nextId] in *. f_equal.
      apply list_insert_id. rewrite Hi. f_equal. unfold merge_status.
      rewrite Hu. by destruct t.
  - split_and!.
    + intros u1 u2. unfold Service.updateTaskStatus. by rewrite Hfind; cbn; rewrite Hfind.
    + intros d1 d2. unfold Service.updateTask. by rewrite Hfind; cbn; rewrite Hfind.
    + done.
Qed.

(** Setting the sample task to the status it has changes nothing. *)
Lemma last_update_wins_witness :
  (Service.updateTaskStatus "1" (mkUpdateTask Pending) initial).2 = initial.
Proof.
  destruct (last_update_wins "1" initial) as (_ & _ & Hsame).
  by apply (Hsame (mkTask "1" "Sample Task" "This is a sample task" Pending)).
Defined.

(** ** The counter *)

Lemma step_counts s o :
  nextId (step s o) = nextId s + creates [o] ∧
  (length (tasks (step s o)) ≤ length (tasks s) + N.to_nat (creates [o]))%nat.
Proof.
  destruct o as [d|id u|id d|id]; simpl.
  - split; [done|]. rewrite length_app. simpl. lia.
  - unfold Service.updateTaskStatus.
    destruct (findIndex id (tasks s)) as [[i t]|]; simpl;
      rewrite ?length_insert; split; lia.
  - unfold Service.updateTask.
    destruct (findIndex id (tasks s)) as [[i t]|]; simpl;
      rewrite ?length_insert; split; lia.
  - unfold Service.deleteTask.
    destruct (findIndex id (tasks s)) as [[i t]|] eqn:E; simpl; [|split; lia].
    apply findIndex_Some in E as (Hi & _).
    rewrite length_delete by (by eexists). split; lia.
Qed.

Lemma creates_cons o ops : creates (o :: ops) = creates [o] + creates ops.
Proof. destruct o; simpl; lia. Qed.

(** X6. The counter counts the creates.  After any sequence of
    operations from the initial store the id counter is 2 plus the
    number of creates in the sequence, and the store holds fewer tasks
    than the counter says: at most one per id given out. *)
Theorem counter_counts_creates (ops : list Op) :
  let s := run initial ops in
  nextId s = 2 + creates ops ∧
  N.of_nat (length (tasks s)) < nextId s.
Proof.
  assert (H : ∀ s0,
    nextId (run s0 ops) = nextId s0 + creates ops ∧
    (length (tasks (run s0 ops)) ≤ length (tasks s0) + N.to_nat (creates ops))%nat).
  { induction ops as [|o ops IH]; intros s0.
    - simpl. split; lia.
    - cbn [run foldl]. fold (run (step s0 o) ops).
      destruct (IH (step s0 o)) as [Hn Hl].
      destruct (step_counts s0 o) as [Hn' Hl'].
      rewrite (creates_cons o ops). split; lia. }
  intros s. destruct (H initial) as [Hn Hl]. fold s in Hn, Hl.
  simpl in Hn, Hl. split; lia.
Qed.

End StoreLaws.

(** * Further properties of the HTTP contract *)

Module HttpLaws.

Import Ops Paths Requests StoreFacts HttpFacts.

(** ** The schemas *)

Lemma length_zero s : String.length s = 0%nat ↔ s = "".
Proof. by destruct s. Qed.

Lemma parse_string_min1_inv field v t :
  parse_string_min1 field v = ParseOk t ↔ v = Some (JStr t) ∧ t ≠ "".
Proof.
  unfold parse_string_min1. split.
  - destruct v as [[]|]; try done. case_decide as Hl; [done|].
    intros [= ->]. split; [done|]. by rewrite <- length_zero.
  - intros [-> Hne]. rewrite decide_False; [done|]. by rewrite length_zero.
Qed.

Lemma parse_status_inv field v st :
  parse_status field v = ParseOk st ↔ v = Some (JStr (status_string st)).
Proof.
  unfold parse_status. split.
  - destruct v as [[]|]; try done. repeat case_decide; try done; subst.
    + by intros [= <-].
    + by intros [= <-].
  - intros ->. by destruct st.
Qed.

Lemma parse_string_min1_issues field v issues :
  parse_string_min1 field v = ZodError issues → issues ≠ [].
Proof.
  unfold parse_string_min1. destruct v as [[]|]; try by intros [= <-].
  case_decide; [by intros [= <-]|done].
Qed.

Lemma parse_status_issues field v issues :
  parse_status field v = ZodError issues → issues ≠ [].
Proof.
  unfold parse_status. destruct v as [[]|]; try by intros [= <-].
  repeat case_decide; try done. by intros [= <-].
Qed.

Lemma parse_status_default_issues field v issues :
  parse_status_default field v = ZodError issues → issues ≠ [].
Proof.
  unfold parse_status_default. destruct v; [apply parse_status_issues|done].
Qed.

Lemma CreateTaskSchema_parse_ok body d :
  CreateTaskSchema_parse body = ParseOk d ↔
  ∃ o, body = JObj o ∧
    obj_get "title" o = Some (JStr (ct_title d)) ∧ ct_title d ≠ "" ∧
    obj_get "description" o = Some (JStr (ct_description d)) ∧
    ct_description d ≠ "" ∧
    (obj_get "status" o = None ∧ ct_status d = Pending ∨
     obj_get "status" o = Some (JStr (status_string (ct_status d)))).
Proof.
  split.
  - destruct body as [| | | |l|o]; try done. unfold CreateTaskSchema_parse.
    destruct (parse_string_min1 "title" (obj_get "title" o)) as [t|it] eqn:Et;
      [|done].
    destruct (parse_string_min1 "description" (obj_get "description" o))
      as [ds|ids] eqn:Ed; [|done].
    destruct (parse_status_default "status" (obj_get "status" o))
      as [st|ist] eqn:Es; [|done].
    intros [= <-]. simpl.
    apply parse_string_min1_inv in Et as [Ht Hte].
    apply parse_string_min1_inv in Ed as [Hd Hde].
    exists o. split_and!; try done.
    unfold parse_status_default in Es.
    destruct (obj_get "status" o) as [v|] eqn:Ev.
    + right. by apply parse_status_inv in Es.
    + left. split; [done|]. by injection Es.
  - intros (o & -> & Ht & Hte & Hd & Hde & Hs). unfold CreateTaskSchema_parse.
    rewrite Ht, Hd, !parse_string_min1_ok by done.
    destruct d as [t ds st]. simpl in *.
    destruct Hs as [[-> ->] | ->]; [done|].
    unfold parse_status_default. by rewrite parse_status_string.
Qed.

Lemma CreateTaskSchema_parse_issues body issues :
  CreateTaskSchema_parse body = ZodError issues → issues ≠ [].
Proof.
  destruct body as [| | | |l|o]; try by intros [= <-].
  unfold CreateTaskSchema_parse.
  destruct (parse_string_min1 "title" (obj_get "title" o)) as [t|it] eqn:Et.
  - destruct (parse_string_min1 "description" (obj_get "description" o))
      as [ds|ids] eqn:Ed.
    + destruct (parse_status_default "status" (obj_get "status" o))
        as [st|ist] eqn:Es; [done|].
      intros [= <-]. simpl. by eapply parse_status_default_issues.
    + apply parse_string_min1_issues in Ed.
      intros [= <-]. simpl. by destruct ids.
  - apply parse_string_min1_issues in Et.
    intros [= <-]. simpl. by destruct it.
Qed.

(** X7. What [CreateTaskSchema] accepts.  The parse of a body succeeds
    with data [d] exactly when the body is an object whose [title] and
    [description] are the strings of [d], both not empty, and whose
    [status] is either absent, with [d] pending, or the string of the
    status of [d]; other members of the object play no part.  A parse
    that fails reports at least one issue. *)
Theorem CreateTaskSchema_accepts (body : json) :
  (∀ d, CreateTaskSchema_parse body = ParseOk d ↔
     ∃ o, body = JObj o ∧
       obj_get "title" o = Some (JStr (ct_title d)) ∧ ct_title d ≠ "" ∧
       obj_get "description" o = Some (JStr (ct_description d)) ∧
       ct_description d ≠ "" ∧
       (obj_get "status" o = None ∧ ct_status d = Pending ∨
        obj_get "status" o = Some (JStr (status_string (ct_status d))))) ∧
  (∀ issues, CreateTaskSchema_parse body = ZodError issues → issues ≠ []).
Proof.
  split; [apply CreateTaskSchema_parse_ok|apply CreateTaskSchema_parse_issues].
Qed.

(** A body with a member that is not looked at, and one with a null
    status. *)
Lemma CreateTaskSchema_accepts_witness :
  CreateTaskSchema_parse
    (JObj [("id", JStr "7"); ("title", JStr "A"); ("description", JStr "B")]) =
    ParseOk (mkCreateTask "A" "B" Pending) ∧
  ∀ issues,
    CreateTaskSchema_parse
      (JObj [("title", JStr "A"); ("description", JStr "B"); ("status", JNull)]) =
      ZodError issues → issues ≠ [].
Proof.
  split.
  - apply (proj1 (CreateTaskSchema_accepts _)). eexists. split; [reflexivity|].
    split_and!; try done. by left.
  - apply (proj2 (CreateTaskSchema_accepts _)).
Defined.

Lemma parse_stringify_create d :
  cd_title d ≠ "" → cd_description d ≠ "" →
  CreateTaskSchema_parse (stringify_create d) =
    ParseOk (mkCreateTask (cd_title d) (cd_description d)
                          (default Pending (cd_status d))).
Proof.
  destruct d as [t d st]. cbn [cd_title cd_description cd_status].
  intros Ht Hd. apply CreateTaskSchema_parse_ok. unfold stringify_create.
  eexists. split; [reflexivity|]. destruct st as [st|]; cbn.
  - split_and!; try done. right. by destruct st.
  - split_and!; try done. by left.
Qed.

Lemma parse_stringify_create_empty d :
  cd_title d = "" ∨ cd_description d = "" →
  ∃ issues, CreateTaskSchema_parse (stringify_create d) = ZodError issues.
Proof.
  destruct d as [t d st]. cbn [cd_title cd_description]. intros Hempty.
  destruct (CreateTaskSchema_parse (stringify_create (mkCreateTaskData t d st)))
    as [d'|issues] eqn:E; [|by eexists].
  apply CreateTaskSchema_parse_ok in E as (o & [= <-] & Ht & Hte & Hd & Hde & _).
  destruct st; cbn in Ht, Hd; injection Ht as Ht; injection Hd as Hd;
    destruct Hempty; congruence.
Qed.

Lemma parse_stringify_status st :
  UpdateTaskSchema_parse (stringify_status st) = ParseOk (mkUpdateTask st).
Proof. by destruct st. Qed.

(** X8. The client's bodies through the server's schemas.  The body
    [taskApi.createTask] sends for data with a title and a description
    that are not empty parses to that title and description and to the
    status given, or to pending when none is given; the body of
    [updateTaskStatus] parses to the status sent; the body of
    [updateTask] parses likewise when the updates hold a title and a
    description that are not empty, and is rejected when either is
    left out. *)
Theorem bodies_round_trip :
  (∀ d, cd_title d ≠ "" → cd_description d ≠ "" →
     CreateTaskSchema_parse (stringify_create d) =
       ParseOk (mkCreateTask (cd_title d) (cd_description d)
                             (default Pending (cd_status d)))) ∧
  (∀ st, UpdateTaskSchema_parse (stringify_status st) = ParseOk (mkUpdateTask st)) ∧
  (∀ u t d, ud_title u = Some t → t ≠ "" → ud_description u = Some d → d ≠ "" →
     CreateTaskSchema_parse (stringify_update u) =
       ParseOk (mkCreateTask t d (default Pending (ud_status u)))) ∧
  (∀ u, ud_title u = None ∨ ud_description u = None →
     ∃ issues, CreateTaskSchema_parse (stringify_update u) = ZodError issues).
Proof.
  split_and!.
  - apply parse_stringify_create.
  - apply parse_stringify_status.
  - intros [ut ud st] t d. cbn [ud_title ud_description ud_status].
    intros -> Ht -> Hd. apply CreateTaskSchema_parse_ok. unfold stringify_update.
    eexists. split; [reflexivity|]. destruct st as [st|]; cbn.
    + split_and!; try done. right. by destruct st.
    + split_and!; try done. by left.
  - intros [ut ud st] Hnone. cbn [ud_title ud_description] in Hnone.
    destruct (CreateTaskSchema_parse
                (stringify_update (mkUpdateTaskData ut ud st))) as [d|issues] eqn:E;
      [|by eexists].
    apply CreateTaskSchema_parse_ok in E as (o & [= <-] & Ht & _ & Hd & _).
    destruct Hnone as [-> | ->].
    + by destruct ud, st.
    + by destruct ut, st.
Qed.

(** The bodies of a create without a status and of a save of the title
    alone. *)
Lemma bodies_round_trip_witness :
  CreateTaskSchema_parse (stringify_create (mkCreateTaskData "Buy milk" "2%" None)) =
    ParseOk (mkCreateTask "Buy milk" "2%" Pending) ∧
  ∃ issues,
    CreateTaskSchema_parse
      (stringify_update (mkUpdateTaskData (Some "Buy milk") None None)) =
    ZodError issues.
Proof.
  destruct bodies_round_trip as (Hcreate & _ & _ & Hpartial). split.
  - by apply (Hcreate (mkCreateTaskData "Buy milk" "2%" None)).
  - apply Hpartial. by right.
Defined.

(** ** What a request does *)

Lemma router_cases m segs body h :
  router m segs body = Handle h →
  (m = GET ∧ h = Controller.getAllTasks) ∨
  (m = POST ∧ h = Controller.createTask body) ∨
  (∃ id,
     (m = DELETE ∧ h = Controller.deleteTask id) ∨
     (m = PATCH ∧ h = Controller.updateTaskStatus id body) ∨
     (m = PUT ∧ h = Controller.updateTask id body)).
Proof.
  unfold router.
  destruct (match_route tasks_path segs) as [ps|].
  - destruct m; try done; intros [= <-]; [by left|by right; left].
  - destruct (match_route task_path segs) as [[|raw [|]]|]; try done.
    destruct (decodeURIComponent raw) as [id|]; [|done].
    destruct m; try done; intros [= <-]; right; right; exists id; naive_solver.
Qed.

Lemma served_getAllTasks r s :
  req_method r = GET →
  Served r s (Controller.getAllTasks s).1 (Controller.getAllTasks s).2.
Proof. intros Hm. by apply served_read. Qed.

Lemma served_createTask r s :
  req_method r = POST →
  Served r s (Controller.createTask (req_body r) s).1
             (Controller.createTask (req_body r) s).2.
Proof.
  intros Hm. unfold Controller.createTask.
  destruct (CreateTaskSchema_parse (req_body r)) as [d|issues] eqn:E; simpl.
  - apply CreateTaskSchema_parse_ok in E as (o & _ & _ & Ht & _ & Hd & _).
    apply (served_change r s 201 _ (Create d)); rewrite ?Hm; naive_solver.
  - apply served_refusal; naive_solver.
Qed.

Lemma served_deleteTask r s id :
  req_method r = DELETE →
  Served r s (Controller.deleteTask id s).1 (Controller.deleteTask id s).2.
Proof.
  intros Hm. unfold Controller.deleteTask.
  destruct (decide (id = "")) as [|Hid]; [apply served_refusal; naive_solver|].
  pose proof (eq_refl (step s (Delete id))) as Hstep. unfold step at 1 in Hstep.
  unfold Service.deleteTask in *.
  destruct (findIndex id (tasks s)) as [[i t]|]; simpl in *.
  - rewrite Hstep.
    apply (served_change r s 200 _ (Delete id)); rewrite ?Hm; naive_solver.
  - apply served_refusal; naive_solver.
Qed.

Lemma served_updateTaskStatus r s id :
  req_method r = PATCH →
  Served r s (Controller.updateTaskStatus id (req_body r) s).1
             (Controller.updateTaskStatus id (req_body r) s).2.
Proof.
  intros Hm. unfold Controller.updateTaskStatus.
  destruct (decide (id = "")) as [|Hid]; [apply served_refusal; naive_solver|].
  destruct (UpdateTaskSchema_parse (req_body r)) as [u|issues]; simpl;
    [|apply served_refusal; naive_solver].
  pose proof (eq_refl (step s (UpdateStatus id u))) as Hstep.
  unfold step at 1 in Hstep. unfold Service.updateTaskStatus in *.
  destruct (findIndex id (tasks s)) as [[i t]|]; simpl in *.
  - rewrite Hstep.
    apply (served_change r s 200 _ (UpdateStatus id u)); rewrite ?Hm; naive_solver.
  - apply served_refusal; naive_solver.
Qed.

Lemma served_updateTask r s id :
  req_method r = PUT →
  Served r s (Controller.updateTask id (req_body r) s).1
             (Controller.updateTask id (req_body r) s).2.
Proof.
  intros Hm. unfold Controller.updateTask.
  destruct (decide (id = "")) as [|Hid]; [apply served_refusal; naive_solver|].
  destruct (CreateTaskSchema_parse (req_body r)) as [d|issues] eqn:E; simpl;
    [|apply served_refusal; naive_solver].
  apply CreateTaskSchema_parse_ok in E as (o & _ & _ & Ht & _ & Hd & _).
  pose proof (eq_refl (step s (Update id d))) as Hstep.
  unfold step at 1 in Hstep. unfold Service.updateTask in *.
  destruct (findIndex id (tasks s)) as [[i t]|]; simpl in *.
  - rewrite Hstep.
    apply (served_change r s 200 _ (Update id d)); rewrite ?Hm; naive_solver.
  - apply served_refusal; naive_solver.
Qed.

Lemma served_notFound r s : Served r s (notFound r s).1 (notFound r s).2.
Proof. apply served_refusal; [by right; left|done]. Qed.

Lemma served_errorHandler r s :
  Served r s (errorHandler s).1 (errorHandler s).2.
Proof. apply served_refusal; [by right; right|done]. Qed.

(** Every request is a page of the Swagger UI, a read, a refusal or a
    change. *)
Lemma app_served r s :
  app r s = (SwaggerUi, s) ∨
  ∃ resp s', app r s = (Json resp, s') ∧ Served r s resp s'.
Proof.
  assert (Hanswer : ∀ h, Served r s (h s).1 (h s).2 →
            ∃ resp s', answer h s = (Json resp, s') ∧ Served r s resp s').
  { intros h Hh. unfold answer. destruct (h s) as [resp s']. by exists resp, s'. }
  unfold app.
  destruct (strict_json (req_body r));
    [|right; apply Hanswer, served_errorHandler].
  destruct (segments (req_path r)) as [[|first rest]|];
    try (right; apply Hanswer, served_notFound).
  case_decide; [by left|]. right.
  destruct (if decide (lower first = "api")
            then router (req_method r) rest (req_body r) else Unrouted)
    as [h| |] eqn:Eh.
  - destruct (decide (lower first = "api")); [|done].
    apply router_cases in Eh
      as [[Hm ->]|[[Hm ->]|(id & [[Hm ->]|[[Hm ->]|[Hm ->]]])]];
      apply Hanswer.
    + by apply served_getAllTasks.
    + by apply served_createTask.
    + by apply served_deleteTask.
    + by apply served_updateTaskStatus.
    + by apply served_updateTask.
  - apply Hanswer, served_errorHandler.
  - destruct (decide (req_method r = GET ∧
                      match_route [Lit "health"] (first :: rest) = Some []))
      as [[Hm _]|_].
    + eexists _, _. split; [reflexivity|]. by apply served_read.
    + apply Hanswer, served_notFound.
Qed.

Lemma refused_unchanged r s :
  (req_method r = GET → (app r s).2 = s) ∧
  (status_of (app r s).1 ≠ Some 200 → status_of (app r s).1 ≠ Some 201 →
     (app r s).2 = s) ∧
  (∀ resp e details,
     (app r s).1 = Json resp → res_body resp = ErrorBody e details →
     (app r s).2 = s ∧
     (res_status resp = 400 ∨ res_status resp = 404 ∨ res_status resp = 500)).
Proof.
  destruct (app_served r s) as [->|(resp & s' & -> & Hserved)]; [done|].
  cbn [fst snd status_of].
  destruct Hserved as [body Hm Hbody|code e details Hcode He
                      |code body o Hm Hcode Hbody Ho]; cbn [res_status res_body].
  - split_and!; try done. intros resp e details [= <-]. naive_solver.
  - split_and!; try done. intros resp e' details' [= <-]. naive_solver.
  - split_and!.
    + done.
    + intros H1 H2. by destruct Hcode; subst.
    + intros resp e details [= Hresp] Hb. subst resp. simpl in Hb.
      exfalso. by eapply Hbody.
Qed.

(** X9. Refusals and reads leave the store alone.  Whatever the
    request, a GET leaves the store as it is; so does every request that
    is answered with a status other than 200 and 201; and a response
    whose body is an error has status 400, 404 or 500 and comes with an
    unchanged store: a request whose validation or lookup fails is
    refused as a whole.  The status is 500, with the message of the
    error handler, for every request whose body is neither an object nor
    an array, and for every request, whatever its method, to a task path
    whose id cannot be decoded. *)
Theorem refusals_change_nothing (r : Request) (s : Store) :
  (req_method r = GET → (app r s).2 = s) ∧
  (status_of (app r s).1 ≠ Some 200 → status_of (app r s).1 ≠ Some 201 →
     (app r s).2 = s) ∧
  (∀ resp e details,
     (app r s).1 = Json resp → res_body resp = ErrorBody e details →
     (app r s).2 = s ∧
     (res_status resp = 400 ∨ res_status resp = 404 ∨ res_status resp = 500)) ∧
  (strict_json (req_body r) = false →
     app r s = (Json (mkResponse 500 (ErrorBody "Something went wrong!" None)), s)) ∧
  (∀ id, id ≠ "" → segment id = true → decodeURIComponent id = None →
     strict_json (req_body r) = true → req_path r = "/api/tasks/" +:+ id →
     app r s = (Json (mkResponse 500 (ErrorBody "Something went wrong!" None)), s)).
Proof.
  destruct (refused_unchanged r s) as (Hget & Hstatus & Herror).
  split_and!; [done..| |].
  - intros Hb. unfold app. by rewrite Hb.
  - intros id Hne Hseg Hdec Hb Hpath. destruct r as [m path body].
    cbn [req_path req_body] in *. subst path.
    change ("/api/tasks/" +:+ id) with (base_path +:+ "/tasks/" +:+ id).
    rewrite (app_task_segment m id body s Hne Hseg Hb). by rewrite Hdec.
Qed.

(** A PATCH with a status that is not of the enumeration, a lookup of a
    single task, a body that is a string and an id that cannot be
    decoded: the store is as before. *)
Lemma refusals_change_nothing_witness :
  (app (mkRequest PATCH "/api/tasks/1" (JObj [("status", JStr "open")])) initial).2
    = initial ∧
  (app (mkRequest GET "/api/tasks/1" (JObj [])) initial).2 = initial ∧
  status_of (app (mkRequest POST "/api/tasks" (JStr "x")) initial).1 = Some 500 ∧
  status_of (app (mkRequest DELETE "/api/tasks/%zz" (JObj [])) initial).1 = Some 500.
Proof.
  split_and!.
  - apply (refusals_change_nothing
             (mkRequest PATCH "/api/tasks/1" (JObj [("status", JStr "open")]))
             initial); by vm_compute.
  - by apply (refusals_change_nothing (mkRequest GET "/api/tasks/1" (JObj [])) initial).
  - destruct (refusals_change_nothing (mkRequest POST "/api/tasks" (JStr "x")) initial)
      as (_ & _ & _ & Hbody & _).
    by rewrite Hbody.
  - destruct (refusals_change_nothing
                (mkRequest DELETE "/api/tasks/%zz" (JObj [])) initial)
      as (_ & _ & _ & _ & Hid).
    by rewrite (Hid "%zz").
Defined.

(** ** Stores reached by requests *)

Lemma run_snoc s ops o : run s (ops ++ [o]) = step (run s ops) o.
Proof. unfold run. by rewrite foldl_app. Qed.

Lemma step_well_formed s o :
  validated o → (∀ t, t ∈ tasks s → well_formed t) →
  ∀ t, t ∈ tasks (step s o) → well_formed t.
Proof.
  intros Ho Hs t. destruct o as [d|id u|id d|id]; simpl.
  - intros [Ht| ->%list_elem_of_singleton]%elem_of_app; [by apply Hs|done].
  - unfold Service.updateTaskStatus.
    destruct (findIndex id (tasks s)) as [[i t0]|] eqn:E; simpl; [|apply Hs].
    apply findIndex_Some in E as (Hi & _).
    intros (j & Hj)%list_elem_of_lookup.
    apply list_lookup_insert_Some in Hj as [(-> & <- & _)|(_ & Hj)].
    + apply (Hs t0). by eapply list_elem_of_lookup_2.
    + apply Hs. by eapply list_elem_of_lookup_2.
  - unfold Service.updateTask.
    destruct (findIndex id (tasks s)) as [[i t0]|] eqn:E; simpl; [|apply Hs].
    intros (j & Hj)%list_elem_of_lookup.
    apply list_lookup_insert_Some in Hj as [(-> & <- & _)|(_ & Hj)].
    + done.
    + apply Hs. by eapply list_elem_of_lookup_2.
  - unfold Service.deleteTask.
    destruct (findIndex id (tasks s)) as [[i t0]|] eqn:E; simpl; [|apply Hs].
    intros Ht. apply Hs. eapply elem_of_sublist; [done|apply sublist_delete].
Qed.

Lemma run_well_formed ops :
  Forall validated ops → ∀ t, t ∈ tasks (run initial ops) → well_formed t.
Proof.
  induction ops as [|o ops IH] using rev_ind; intros Hops.
  - intros t ->%list_elem_of_singleton. by split.
  - apply Forall_app in Hops as [Hops Ho]. inversion_clear Ho as [|? ? Ho' _].
    rewrite run_snoc. apply step_well_formed; [done|by apply IH].
Qed.

(** The requests served so far amount to a sequence of validated
    operations of the service. *)
Lemma serve_all_run rs :
  ∃ ops, Forall validated ops ∧ serve_all initial rs = run initial ops.
Proof.
  induction rs as [|r rs IH] using rev_ind.
  - by exists [].
  - destruct IH as (ops & Hops & Heq). unfold serve_all in *.
    rewrite foldl_app. simpl. rewrite Heq. unfold serve.
    destruct (app_served r (run initial ops)) as [->|(resp & s' & -> & Hserved)];
      [by exists ops|]. simpl.
    destruct Hserved as [| |code body o Hm Hcode Hbody Ho];
      [by exists ops|by exists ops|].
    exists (ops ++ [o]). split; [|by rewrite run_snoc].
    apply Forall_app. split; [done|by apply Forall_singleton].
Qed.

(** X10. Stores reached by requests.  After any sequence of requests to
    the application, starting from the initial store, the ids of the
    stored tasks are pairwise distinct, every stored task has a title and
    a description that are not empty, and every id is a decimal string
    below the counter: the validation of the handlers keeps the store
    within [TaskSchema]. *)
Theorem served_stores_valid (rs : list Request) :
  let s := serve_all initial rs in
  NoDup (ids s) ∧
  (∀ t, t ∈ tasks s → well_formed t) ∧
  (∀ t, t ∈ tasks s → plain_id (task_id t) ∧
        ∃ k, task_id t = toString k ∧ 0 < k < nextId s).
Proof.
  intros s. destruct (serve_all_run rs) as (ops & Hops & Heq). fold s in Heq.
  rewrite Heq.
  destruct (run_invariant ops initial) as [Hnd Hbelow];
    [apply initial_invariant..|].
  split_and!; [done|by apply run_well_formed|].
  intros t Ht.
  assert (Hin : task_id t ∈ ids (run initial ops))
    by (unfold ids; apply list_elem_of_fmap; by exists t).
  split; [by eapply reachable_plain|].
  destruct (Hbelow _ Hin) as (k & Hk & Hlt). exists k. split_and!; [done| |done].
  destruct (decide (k = 0)) as [->|]; [|lia].
  exfalso. clear -Hin Hk. rewrite Hk in Hin.
  assert (H0 : ∀ ops0, toString 0 ∉ ids (run initial ops0)); [|by eapply H0].
  induction ops0 as [|o ops0 IH] using rev_ind.
  - by intros ?%list_elem_of_singleton.
  - rewrite run_snoc. pose proof (step_ids_effect (run initial ops0) o) as He.
    destruct o; unfold ids_effect in He.
    + destruct He as [-> _]. intros [?| Heq%list_elem_of_singleton]%elem_of_app;
        [done|].
      apply (inj toString) in Heq.
      pose proof (run_nextId_mono ops0 initial). simpl in *. lia.
    + by destruct He as [-> _].
    + by destruct He as [-> _].
    + destruct He as [[-> |[i ->]] _]; [done|].
      intros Hd. apply IH. eapply elem_of_sublist; [done|apply sublist_delete].
Qed.

(** ** Create *)

(** X11. Create success.  A POST on /api/tasks whose body has a title
    and a description that are not empty, and a status that is absent or
    of the enumeration, is answered 201 with the new task: its id is the
    string of the counter, its status the one given, or pending.  The
    task is appended to the store, and a following GET on /api/tasks
    lists the tasks that were there and then the new one. *)
Theorem post_creates (o : list (string * json)) (t d : string) (st : Status)
    (s : Store) :
  obj_get "title" o = Some (JStr t) → t ≠ "" →
  obj_get "description" o = Some (JStr d) → d ≠ "" →
  (obj_get "status" o = None ∧ st = Pending ∨
   obj_get "status" o = Some (JStr (status_string st))) →
  let new := mkTask (toString (nextId s)) t d st in
  let s' := mkStore (tasks s ++ [new]) (nextId s + 1) in
  app (mkRequest POST "/api/tasks" (JObj o)) s =
    (Json (mkResponse 201 (OneTask new)), s') ∧
  app (mkRequest GET "/api/tasks" (JObj [])) s' =
    (Json (mkResponse 200 (TaskList (tasks s ++ [new]))), s').
Proof.
  intros Ht Hte Hd Hde Hs new s'.
  assert (Hparse : CreateTaskSchema_parse (JObj o) = ParseOk (mkCreateTask t d st)).
  { apply CreateTaskSchema_parse_ok. exists o. by split_and!. }
  split.
  - change "/api/tasks" with (base_path +:+ "/tasks"). rewrite app_tasks_route by done.
    unfold answer, Controller.createTask. by rewrite Hparse.
  - change "/api/tasks" with (base_path +:+ "/tasks"). by rewrite app_tasks_route by done.
Qed.

(** The create of the spec's scenario. *)
Lemma post_creates_witness :
  app (mkRequest POST "/api/tasks"
         (JObj [("title", JStr "Buy milk"); ("description", JStr "2%")])) initial =
    (Json (mkResponse 201 (OneTask (mkTask "2" "Buy milk" "2%" Pending))),
     mkStore [mkTask "1" "Sample Task" "This is a sample task" Pending;
              mkTask "2" "Buy milk" "2%" Pending] 3).
Proof.
  apply (post_creates [("title", JStr "Buy milk"); ("description", JStr "2%")]
           "Buy milk" "2%" Pending initial); try done. by left.
Defined.

End HttpLaws.

(** * Further properties of the client cache layer *)

Module ClientLaws.

Import Hooks Queries Ops Paths Protocol StoreFacts ClientFacts.

(** ** Backoff *)

(** X12. The retry delay.  The delay before a retry of a query doubles
    from one second with each failed attempt, up to the fifth, and is
    thirty seconds from then on: it never falls below one second, never
    exceeds thirty, and never decreases from one attempt to the next. *)
Theorem retryDelay_bounds (n : N) :
  1000 ≤ retryDelay n ≤ 30000 ∧
  (∀ m, n ≤ m → retryDelay n ≤ retryDelay m) ∧
  (n < 5 → retryDelay n = 1000 * 2 ^ n) ∧
  (5 ≤ n → retryDelay n = 30000).
Proof.
  unfold retryDelay.
  assert (Hpos : ∀ k, 1 ≤ 2 ^ k).
  { intros k. change 1 with (2 ^ 0). apply N.pow_le_mono_r; lia. }
  split_and!.
  - pose proof (Hpos n). lia.
  - lia.
  - intros m Hm. assert (2 ^ n ≤ 2 ^ m) by (apply N.pow_le_mono_r; lia). lia.
  - intros Hn. assert (2 ^ n ≤ 2 ^ 4) by (apply N.pow_le_mono_r; lia).
    change (2 ^ 4) with 16 in *. lia.
  - intros Hn. assert (2 ^ 5 ≤ 2 ^ n) by (apply N.pow_le_mono_r; lia).
    change (2 ^ 5) with 32 in *. lia.
Qed.

(** The delays after the first failures, and far out. *)
Lemma retryDelay_bounds_witness :
  retryDelay 0 = 1000 ∧ retryDelay 3 = 8000 ∧ retryDelay 40 = 30000 ∧
  retryDelay 3 ≤ retryDelay 40.
Proof.
  destruct (retryDelay_bounds 0) as (_ & _ & H0 & _).
  destruct (retryDelay_bounds 3) as (_ & Hmono & H3 & _).
  destruct (retryDelay_bounds 40) as (_ & _ & _ & H40).
  split_and!.
  - rewrite H0; [reflexivity|lia].
  - rewrite H3; [reflexivity|lia].
  - apply H40. lia.
  - apply Hmono. lia.
Defined.

(** ** The optimistic change against the store *)

Lemma fmap_fixed {A} (f : A → A) (l : list A) :
  (∀ x, x ∈ l → f x = x) → f <$> l = l.
Proof.
  induction l as [|x l IH]; intros H; [done|]. simpl.
  rewrite H by apply list_elem_of_here. f_equal. apply IH.
  intros y Hy. apply H. by apply list_elem_of_further.
Qed.

Lemma filter_all {A} (P : A → Prop) `{!∀ x, Decision (P x)} (l : list A) :
  (∀ x, x ∈ l → P x) → filter P l = l.
Proof.
  induction l as [|x l IH]; intros Hall; [done|].
  rewrite filter_cons_True by apply Hall, list_elem_of_here. f_equal. apply IH.
  intros y Hy. apply Hall. by apply list_elem_of_further.
Qed.

Lemma other_ids id x l :
  NoDup (task_id <$> x :: l) → task_id x = id →
  ∀ y, y ∈ l → task_id y ≠ id.
Proof.
  intros Hnd Hx y Hy Heq. apply NoDup_cons in Hnd as [Hnot _].
  apply Hnot. rewrite Hx, <- Heq. apply list_elem_of_fmap. by exists y.
Qed.

Lemma fmap_at_find (f : Task → Task) id l :
  NoDup (task_id <$> l) → (∀ x, task_id x ≠ id → f x = x) →
  f <$> l = match findIndex id l with
            | Some (i, x) => <[i := f x]> l
            | None => l
            end.
Proof.
  intros Hnd Hf. unfold findIndex. induction l as [|x l IH]; [done|].
  cbn [list_find fmap list_fmap]. destruct (decide (task_id x = id)) as [Hx|Hx].
  - simpl. f_equal. apply fmap_fixed. intros y Hy. apply Hf.
    by eapply other_ids.
  - rewrite Hf by done. apply NoDup_cons in Hnd as [_ Hnd].
    specialize (IH Hnd). fold (fmap f l). rewrite IH.
    by destruct (list_find _ l) as [[i y]|].
Qed.

Lemma filter_at_find id l :
  NoDup (task_id <$> l) →
  filter (λ t, task_id t ≠ id) l =
    match findIndex id l with
    | Some (i, _) => delete i l
    | None => l
    end.
Proof.
  intros Hnd. unfold findIndex. induction l as [|x l IH]; [done|].
  cbn [list_find]. destruct (decide (task_id x = id)) as [Hx|Hx].
  - rewrite filter_cons_False by (by intros ?). simpl.
    apply filter_all. intros y Hy. by eapply other_ids.
  - rewrite filter_cons_True by done. apply NoDup_cons in Hnd as [_ Hnd].
    rewrite (IH Hnd). by destruct (list_find _ l) as [[i y]|].
Qed.

Lemma predict_status id st s :
  NoDup (ids s) →
  set_status id st <$> tasks s =
    tasks (Service.updateTaskStatus id (mkUpdateTask st) s).2.
Proof.
  intros Hnd. rewrite (fmap_at_find _ id) by
    (done || (intros x Hx; unfold set_status; by rewrite decide_False)).
  unfold Service.updateTaskStatus.
  destruct (findIndex id (tasks s)) as [[i x]|] eqn:E; [|done]. simpl.
  apply findIndex_Some in E as (_ & Hid & _).
  unfold set_status, merge_status. by rewrite decide_True.
Qed.

Lemma predict_update id t d st s :
  NoDup (ids s) →
  apply_updates id (mkUpdateTaskData (Some t) (Some d) (Some st)) <$> tasks s =
    tasks (Service.updateTask id (mkCreateTask t d st) s).2.
Proof.
  intros Hnd. rewrite (fmap_at_find _ id) by
    (done || (intros x Hx; unfold apply_updates; by rewrite decide_False)).
  unfold Service.updateTask.
  destruct (findIndex id (tasks s)) as [[i x]|] eqn:E; [|done]. simpl.
  apply findIndex_Some in E as (_ & Hid & _).
  unfold apply_updates, merge_all. by rewrite decide_True.
Qed.

Lemma predict_delete id s :
  NoDup (ids s) →
  filter (λ task, task_id task ≠ id) (tasks s) =
    tasks (Service.deleteTask id s).2.
Proof.
  intros Hnd. rewrite filter_at_find by done. unfold Service.deleteTask.
  by destruct (findIndex id (tasks s)) as [[i x]|].
Qed.

(** X13. The optimistic change predicts the store.  When the cached
    list is the list of the store and the ids are distinct, the change
    each optimistic hook applies to the cache gives the list the store
    holds after the operation: for the status update, for the delete,
    and for a full update that carries title, description and status.
    (An id that is not in the store changes neither.) *)
Theorem optimistic_predicts (id : string) (s : Store) :
  NoDup (ids s) →
  (∀ st, set_status id st <$> tasks s =
         tasks (Service.updateTaskStatus id (mkUpdateTask st) s).2) ∧
  (∀ t d st,
     apply_updates id (mkUpdateTaskData (Some t) (Some d) (Some st)) <$> tasks s =
     tasks (Service.updateTask id (mkCreateTask t d st) s).2) ∧
  filter (λ task, task_id task ≠ id) (tasks s) =
    tasks (Service.deleteTask id s).2.
Proof.
  intros Hnd. split_and!.
  - intros st. by apply predict_status.
  - intros t d st. by apply predict_update.
  - by apply predict_delete.
Qed.

(** The prediction on a store of two tasks. *)
Lemma optimistic_predicts_witness :
  let s := (Service.createTask (mkCreateTask "Buy milk" "2%" Pending) initial).2 in
  set_status "1" Done <$> tasks s =
    tasks (Service.updateTaskStatus "1" (mkUpdateTask Done) s).2 ∧
  filter (λ task, task_id task ≠ "2") (tasks s) =
    tasks (Service.deleteTask "2" s).2.
Proof.
  intros s.
  destruct (optimistic_predicts "1" s) as (Hstatus & _); [compute_done|].
  destruct (optimistic_predicts "2" s) as (_ & _ & Hdelete); [compute_done|].
  split; [apply Hstatus|apply Hdelete].
Defined.

(** ** Attempts *)

Section Attempts.

Context {W : Type}.
Variable fetch : Request → W → Fetched * W.
Variable validateTask : option ResBody → string + Task.

Lemma sends_with_validation r :
  sends (bind (makeRequest fetch r) (validateTaskData validateTask)) r.
Proof.
  intros st. unfold bind, makeRequest.
  destruct (fetch r (world st)) as [f w'].
  destruct (makeRequest_result f) as [data|e]; [|done].
  unfold validateTaskData. by destruct (validateTask data).
Qed.

Lemma sends_api_deleteTask id :
  sends (api_deleteTask fetch id) (deleteTask_request id).
Proof.
  intros st. unfold api_deleteTask, bind, makeRequest.
  destruct (fetch _ (world st)) as [f w'].
  by destruct (makeRequest_result f) as [data|e].
Qed.

(** X14. A mutation is attempted at most twice.  Each of the four
    mutations sends its own request once, or twice when the first
    attempt is rejected, and no other request.  The three optimistic
    mutations cancel the refetches once before the request and
    invalidate once after it; the create mutation invalidates after the
    request exactly when it succeeds. *)
Theorem at_most_two_attempts :
  (∀ id s (st : @State W), ∃ k, (1 ≤ k ≤ 2)%nat ∧
     trace (mutateAsync (updateTaskStatusMutation fetch validateTask) (id, s) st).2 =
       trace st ++ [CancelQueries] ++
       replicate k (Sent (updateTaskStatus_request id s)) ++ [InvalidateQueries]) ∧
  (∀ id u (st : @State W), ∃ k, (1 ≤ k ≤ 2)%nat ∧
     trace (mutateAsync (updateTaskMutation fetch validateTask) (id, u) st).2 =
       trace st ++ [CancelQueries] ++
       replicate k (Sent (updateTask_request id u)) ++ [InvalidateQueries]) ∧
  (∀ id (st : @State W), ∃ k, (1 ≤ k ≤ 2)%nat ∧
     trace (mutateAsync (deleteTaskMutation fetch) id st).2 =
       trace st ++ [CancelQueries] ++
       replicate k (Sent (deleteTask_request id)) ++ [InvalidateQueries]) ∧
  (∀ d (st : @State W), ∃ k, (1 ≤ k ≤ 2)%nat ∧
     let settled := mutateAsync (createTaskMutation fetch validateTask) d st in
     trace settled.2 =
       trace st ++ replicate k (Sent (createTask_request d)) ++
       match settled.1 with
       | Fulfilled _ => [InvalidateQueries]
       | Rejected _ => []
       end).
Proof.
  split_and!.
  - intros id s st.
    apply (optimistic_hook_trace _ _ _ (id, s) (status_hook fetch validateTask)).
    apply sends_with_validation.
  - intros id u st.
    apply (optimistic_hook_trace _ _ _ (id, u) (update_hook fetch validateTask)).
    apply sends_with_validation.
  - intros id st.
    apply (optimistic_hook_trace _ _ _ id (delete_hook fetch)).
    apply sends_api_deleteTask.
  - intros d st. unfold mutateAsync.
    destruct (create_phases fetch validateTask d st) as [-> Hsettle].
    change (mutationFn (createTaskMutation fetch validateTask) d)
      with (api_createTask fetch validateTask d).
    destruct (sends_attempt mutation_retry (api_createTask fetch validateTask d)
                (createTask_request d) (sends_with_validation _) st)
      as (k & Hk & Ht).
    exists k. split; [exact Hk|].
    destruct (attempt mutation_retry (api_createTask fetch validateTask d) st)
      as [[new|e] st2]; cbn [fst snd] in *; rewrite Hsettle; simpl.
    + by rewrite Ht, <- app_assoc.
    + by rewrite Ht, app_nil_r.
Qed.

End Attempts.

End ClientLaws.

(** * Further properties of the client in front of the server *)

Module WireLaws.

Import Hooks Queries Wire TaskItem Ops Paths Protocol Requests.
Import StoreFacts HttpFacts ClientFacts HttpLaws ClientLaws.

(** ** Responses and errors *)

Lemma makeRequest_server r (st : @State Store) :
  makeRequest server_fetch r st =
  (match (app r (world st)).1 with
   | Json resp =>
       match res_body resp with
       | ErrorBody e _ => Rejected (APIError e (res_status resp))
       | b => Fulfilled (Some b)
       end
   | SwaggerUi => Rejected (APIError "Network error occurred" 0)
   end,
   mkState (cache st) (trace st ++ [Sent r]) (app r (world st)).2).
Proof.
  unfold makeRequest, server_fetch.
  destruct (app_served r (world st)) as [->|(resp & s' & -> & Hserved)]; [done|].
  cbn [fst snd]. f_equal.
  destruct Hserved as [body Hm Hbody|code e details Hcode He
                      |code body o Hm Hcode Hbody Ho]; cbn [res_status res_body].
  - destruct body; try done. by edestruct Hbody.
  - unfold makeRequest_result, error_message.
    rewrite (decide_False (P := e = "")) by done.
    by destruct Hcode as [-> | [-> | ->]].
  - destruct body; try (by destruct Hcode as [-> | ->]). by edestruct Hbody.
Qed.

(** X15. Server errors reach the caller as they are.  Against this
    server, [makeRequest] fulfils with the body of the response exactly
    when the body is not an error, and otherwise rejects with an
    [APIError] that carries the server's error message and the status of
    the response; a page of the Swagger UI, which is not JSON, is
    reported as a network error.  One request is sent, and the store is
    the one the server left. *)
Theorem server_errors_surface (r : Request) (st : @State Store) :
  makeRequest server_fetch r st =
  (match (app r (world st)).1 with
   | Json resp =>
       match res_body resp with
       | ErrorBody e _ => Rejected (APIError e (res_status resp))
       | b => Fulfilled (Some b)
       end
   | SwaggerUi => Rejected (APIError "Network error occurred" 0)
   end,
   mkState (cache st) (trace st ++ [Sent r]) (app r (world st)).2).
Proof. apply makeRequest_server. Qed.

(** ** The mutations against the server *)

Lemma optimistic_cached {W} change (st : @State W) l :
  cache st = Some l →
  optimistic change st =
    (mkContext (Some l),
     mkState (Some (change l)) (trace st ++ [CancelQueries]) (world st)).
Proof.
  intros Hl. unfold optimistic. simpl. rewrite Hl.
  unfold exec, setQueryData. simpl. by rewrite Hl.
Qed.

Lemma api_deleteTask_server id (st : @State Store) :
  plain_id id →
  api_deleteTask server_fetch id st =
  ((if (Service.deleteTask id (world st)).1 then Fulfilled ()
    else Rejected (APIError "Task not found" 404)),
   mkState (cache st) (trace st ++ [Sent (deleteTask_request id)])
           (Service.deleteTask id (world st)).2).
Proof.
  intros Hid. unfold api_deleteTask, bind. rewrite makeRequest_server.
  unfold deleteTask_request. rewrite app_task_route by done.
  unfold answer, Controller.deleteTask. rewrite decide_False by apply Hid.
  by destruct (Service.deleteTask id (world st)) as [[|] s'].
Qed.

(** X16. Delete, end to end.  Let the cache hold the list of the store,
    with distinct ids, and take a plain id.  If the id is in the store,
    the delete of the client fulfils after one request, the server has
    removed the task, and the cache holds the list of the server.  If the
    id is not in the store the server answers 404 to both attempts, the
    delete rejects with the server's "Task not found", the store is
    untouched and the cache is put back as it was. *)
Theorem delete_end_to_end (id : string) (st : @State Store) :
  plain_id id → cache st = Some (tasks (world st)) → NoDup (ids (world st)) →
  let s := world st in
  let r := deleteTask_request id in
  (id ∈ ids s →
     Hooks.deleteTask server_fetch id st =
       (Fulfilled (),
        mkState (Some (tasks (Service.deleteTask id s).2))
                (trace st ++ [CancelQueries; Sent r; InvalidateQueries])
                (Service.deleteTask id s).2)) ∧
  (id ∉ ids s →
     Hooks.deleteTask server_fetch id st =
       (Rejected (APIError "Task not found" 404),
        mkState (cache st)
                (trace st ++ [CancelQueries; Sent r; Sent r; InvalidateQueries])
                s)).
Proof.
  intros Hid Hcache Hnd s r.
  assert (Hrun : ∀ (found : bool) s',
    Service.deleteTask id s = (found, s') →
    Hooks.deleteTask server_fetch id st =
      if found
      then (Fulfilled (),
            mkState (Some (filter (λ task, task_id task ≠ id) (tasks s)))
                    (trace st ++ [CancelQueries; Sent r; InvalidateQueries]) s')
      else (Rejected (APIError "Task not found" 404),
            mkState (cache st)
              (trace st ++ [CancelQueries] ++
               [Sent r] ++ [Sent (deleteTask_request id)] ++ [InvalidateQueries])
              (Service.deleteTask id s').2)).
  { intros found s' Hdel. unfold Hooks.deleteTask, bind, mutateAsync.
    destruct (delete_hook server_fetch) as (Hbegin & Hsettle & _).
    rewrite Hbegin, (optimistic_cached _ st _ Hcache). cbn [fst snd].
    change (mutationFn (deleteTaskMutation server_fetch) id)
      with (api_deleteTask server_fetch id).
    unfold mutation_retry. cbn [attempt].
    rewrite api_deleteTask_server by done. cbn [world cache trace].
    fold s. rewrite Hdel. cbn [fst snd]. destruct found.
    - rewrite Hsettle. unfold refetch_always, exec, invalidateQueries, emit.
      cbn. by rewrite <- !app_assoc.
    - rewrite api_deleteTask_server by done. cbn [world cache trace].
      destruct (Service.deleteTask id s') as [[|] s''] eqn:Hdel2; cbn [fst snd].
      + exfalso. unfold Service.deleteTask in Hdel, Hdel2.
        destruct (findIndex id (tasks s)) as [[i t]|] eqn:E; [done|].
        injection Hdel as <-. by rewrite E in Hdel2.
      + rewrite Hsettle. unfold refetch_always, rollback, exec, invalidateQueries,
          setQueryData, emit. cbn. rewrite Hcache. by rewrite <- !app_assoc. }
  split.
  - intros Hin. destruct (findIndex_elem _ _ Hin) as (i & t & Hfind).
    rewrite (Hrun true (Service.deleteTask id s).2).
    + by rewrite predict_delete.
    + unfold Service.deleteTask. by rewrite Hfind.
  - intros Hnot. apply findIndex_None in Hnot.
    assert (Hdel : Service.deleteTask id s = (false, s))
      by (unfold Service.deleteTask; by rewrite Hnot).
    by rewrite (Hrun false s Hdel), Hdel.
Qed.

(** The delete of the scenario, and a delete of an unknown id. *)
Lemma delete_end_to_end_witness :
  let s := (Service.createTask (mkCreateTask "Buy milk" "2%" Pending) initial).2 in
  let st := Scenario.cached (tasks s) s in
  (Hooks.deleteTask server_fetch "2" st).1 = Fulfilled () ∧
  cache (Hooks.deleteTask server_fetch "2" st).2 = Some (tasks initial) ∧
  (Hooks.deleteTask server_fetch "9" st).1 =
    Rejected (APIError "Task not found" 404).
Proof.
  intros s st.
  destruct (delete_end_to_end "2" st) as [Hpresent _];
    [split; [done|reflexivity]|reflexivity|compute_done|].
  destruct (delete_end_to_end "9" st) as [_ Habsent];
    [split; [done|reflexivity]|reflexivity|compute_done|].
  rewrite Hpresent by compute_done. rewrite Habsent by compute_done.
  by split_and!.
Defined.

Section Against.

Variable validateTask : option ResBody → string + Task.

(** What the validation of a returned task settles to. *)
Lemma validateTaskData_result data (st : @State Store) :
  validateTaskData validateTask data st =
  (match validateTask data with
   | inr t => Fulfilled t
   | inl msg => Rejected (Error ("Invalid task data: " +:+ msg))
   end, st).
Proof. unfold validateTaskData. by destruct (validateTask data). Qed.

Lemma api_createTask_server d (st : @State Store) :
  api_createTask server_fetch validateTask d st =
  (match Controller.createTask (stringify_create d) (world st) with
   | (resp, _) =>
       match res_body resp with
       | ErrorBody e _ => Rejected (APIError e (res_status resp))
       | b => match validateTask (Some b) with
              | inr t => Fulfilled t
              | inl msg => Rejected (Error ("Invalid task data: " +:+ msg))
              end
       end
   end,
   mkState (cache st) (trace st ++ [Sent (createTask_request d)])
           (Controller.createTask (stringify_create d) (world st)).2).
Proof.
  unfold api_createTask, bind. rewrite makeRequest_server.
  unfold createTask_request. rewrite app_tasks_route by done. unfold answer.
  destruct (Controller.createTask (stringify_create d) (world st)) as [resp s'].
  cbn [fst snd]. destruct (res_body resp); try done;
    by rewrite validateTaskData_result.
Qed.

(** X17. Create, end to end.  For data with a title and a description
    that are not empty, the create of the client sends one POST; the
    server appends the new task, whose id is the string of the counter
    and whose status is the one given, or pending; and, when the task
    returned passes the validation of the client, the create fulfils
    with it, appends it to the cached list and invalidates the query.
    For data with an empty title or description the server answers 400
    to both attempts, the create rejects with "Invalid data", and cache
    and store are as they were. *)
Theorem create_end_to_end (d : CreateTaskData) (st : @State Store) :
  let s := world st in
  let r := createTask_request d in
  let new := mkTask (toString (nextId s)) (cd_title d) (cd_description d)
                    (default Pending (cd_status d)) in
  (cd_title d ≠ "" → cd_description d ≠ "" →
   validateTask (Some (OneTask new)) = inr new →
     Hooks.createTask server_fetch validateTask d st =
       (Fulfilled new,
        mkState (Some (default [] (cache st) ++ [new]))
                (trace st ++ [Sent r; InvalidateQueries])
                (mkStore (tasks s ++ [new]) (nextId s + 1)))) ∧
  (cd_title d = "" ∨ cd_description d = "" →
     Hooks.createTask server_fetch validateTask d st =
       (Rejected (APIError "Invalid data" 400),
        mkState (cache st) (trace st ++ [Sent r; Sent r]) s)).
Proof.
  intros s r new. split.
  - intros Ht Hd Hvalid. unfold Hooks.createTask, mutateAsync.
    destruct (create_phases server_fetch validateTask d st) as [-> Hsettle].
    change (mutationFn (createTaskMutation server_fetch validateTask) d)
      with (api_createTask server_fetch validateTask d).
    unfold mutation_retry. cbn [attempt]. rewrite api_createTask_server.
    unfold Controller.createTask. rewrite parse_stringify_create by done.
    cbn [Service.createTask ct_title ct_description ct_status fst snd
         res_body res_status]. fold s new. rewrite Hvalid. cbv beta iota.
    rewrite Hsettle. cbn. by rewrite <- !app_assoc.
  - intros Hempty. unfold Hooks.createTask, mutateAsync.
    destruct (create_phases server_fetch validateTask d st) as [-> Hsettle].
    change (mutationFn (createTaskMutation server_fetch validateTask) d)
      with (api_createTask server_fetch validateTask d).
    destruct (parse_stringify_create_empty d Hempty) as [issues Hparse].
    unfold mutation_retry. cbn [attempt]. rewrite api_createTask_server.
    unfold Controller.createTask. rewrite Hparse.
    cbn [fst snd res_body res_status invalid_data]. cbv beta iota.
    rewrite api_createTask_server. unfold Controller.createTask.
    cbn [world]. rewrite Hparse.
    cbn [fst snd res_body res_status invalid_data cache trace]. cbv beta iota.
    rewrite Hsettle. by rewrite <- !app_assoc.
Qed.

End Against.

(** The create of the scenario, and a create without a title. *)
Lemma create_end_to_end_witness :
  let st := Scenario.cached (tasks initial) initial in
  Hooks.createTask server_fetch Scenario.accept_task
      (mkCreateTaskData "Buy milk" "2%" None) st =
    (Fulfilled (mkTask "2" "Buy milk" "2%" Pending),
     mkState (Some [Scenario.sample; mkTask "2" "Buy milk" "2%" Pending])
       [Sent (createTask_request (mkCreateTaskData "Buy milk" "2%" None));
        InvalidateQueries]
       (mkStore [Scenario.sample; mkTask "2" "Buy milk" "2%" Pending] 3)) ∧
  (Hooks.createTask server_fetch Scenario.accept_task
      (mkCreateTaskData "" "2%" None) st).1 =
    Rejected (APIError "Invalid data" 400).
Proof.
  intros st.
  destruct (create_end_to_end Scenario.accept_task
              (mkCreateTaskData "Buy milk" "2%" None) st) as [Hok _].
  destruct (create_end_to_end Scenario.accept_task
              (mkCreateTaskData "" "2%" None) st) as [_ Hbad].
  split.
  - by apply Hok.
  - rewrite Hbad; [done|by left].
Defined.

(** ** Toggle, refetch and save against the server *)

(** With its retries, a computation that moves the world by an
    idempotent function moves it by that function. *)
Lemma attempt_world {W R} (fn : @M W R) (g : W → W) :
  (∀ st, world (fn st).2 = g (world st)) → (∀ w, g (g w) = g w) →
  ∀ n st, world (attempt n fn st).2 = g (world st).
Proof.
  intros Hfn Hg. induction n as [|n IH]; intros st; simpl.
  - specialize (Hfn st). by destruct (fn st) as [[a|e] st1].
  - specialize (Hfn st). destruct (fn st) as [[a|e] st1]; simpl in *; [done|].
    by rewrite IH, Hfn, Hg.
Qed.

(** A fulfilled optimistic mutation leaves the cache as [onMutate]
    changed it, and the world as the mutation function left it. *)
Lemma optimistic_hook_settled {W V R} (m : @Mutation W V R) change v st :
  optimistic_hook m change →
  ∃ st1, cache st1 = change v <$> cache st ∧ world st1 = world st ∧
    let attempted := attempt mutation_retry (mutationFn m v) st1 in
    (mutateAsync m v st).1 = attempted.1 ∧
    world (mutateAsync m v st).2 = world attempted.2 ∧
    (∀ a, attempted.1 = Fulfilled a →
       cache (mutateAsync m v st).2 = change v <$> cache st) ∧
    (∀ e, attempted.1 = Rejected e → cache (mutateAsync m v st).2 = cache st).
Proof.
  intros Hhook. pose proof Hhook as (Hbegin & Hsettle & Hquiet).
  unfold mutateAsync. rewrite Hbegin.
  destruct (optimistic_spec (change v) st) as (Hctx & Hc1 & _ & Hw1).
  destruct (optimistic (change v) st) as [ctx st1]. cbn [fst snd] in *.
  exists st1. split; [done|]. split; [done|]. cbv zeta.
  destruct (quiet_attempt mutation_retry _ (Hquiet v) st1) as [Hc2 _].
  destruct (attempt mutation_retry (mutationFn m v) st1) as [res st2].
  cbn [fst snd] in *. rewrite Hsettle. split_and!; [done| | |].
  - destruct res; [done|].
    destruct (refetch_always_spec (rollback (Some ctx) st2)) as (_ & _ & ->).
    by destruct (rollback_spec (Some ctx) st2) as (_ & _ & ->).
  - intros a ->. destruct (refetch_always_spec st2) as (-> & _). congruence.
  - intros e ->.
    destruct (refetch_always_spec (rollback (Some ctx) st2)) as (-> & _).
    destruct (rollback_spec (Some ctx) st2) as (-> & _). rewrite Hctx. simpl.
    destruct (cache st) as [l|] eqn:E; [done|]. by rewrite Hc2, Hc1.
Qed.

Lemma status_again id u s :
  (Service.updateTaskStatus id u (Service.updateTaskStatus id u s).2).2 =
  (Service.updateTaskStatus id u s).2.
Proof.
  unfold Service.updateTaskStatus at 2 3.
  destruct (findIndex id (tasks s)) as [[i t]|] eqn:Hfind; cbn [snd].
  - unfold Service.updateTaskStatus. cbn [tasks nextId].
    erewrite EndToEnd.findIndex_insert; [|exact Hfind|].
    + cbn [snd]. by rewrite list_insert_insert_eq.
    + by apply findIndex_Some in Hfind as (_ & ? & _).
  - unfold Service.updateTaskStatus. by rewrite Hfind.
Qed.

Section Toggle.

Variable validateTask : option ResBody → string + Task.

Lemma api_updateTaskStatus_server id status (st : @State Store) :
  plain_id id →
  api_updateTaskStatus server_fetch validateTask id status st =
  (match (Service.updateTaskStatus id (mkUpdateTask status) (world st)).1 with
   | Some t =>
       match validateTask (Some (OneTask t)) with
       | inr t' => Fulfilled t'
       | inl msg => Rejected (Error ("Invalid task data: " +:+ msg))
       end
   | None => Rejected (APIError "Task not found" 404)
   end,
   mkState (cache st) (trace st ++ [Sent (updateTaskStatus_request id status)])
           (Service.updateTaskStatus id (mkUpdateTask status) (world st)).2).
Proof.
  intros Hid. unfold api_updateTaskStatus, bind. rewrite makeRequest_server.
  unfold updateTaskStatus_request. rewrite app_task_route by done.
  unfold answer, Controller.updateTaskStatus. rewrite decide_False by apply Hid.
  rewrite parse_stringify_status.
  destruct (Service.updateTaskStatus id (mkUpdateTask status) (world st))
    as [[t|] s']; cbn [fst snd res_body res_status task_not_found]; [|done].
  by rewrite validateTaskData_result.
Qed.

(** X18. Toggle, end to end.  Let the cache hold the list of the store,
    with distinct ids, and let a plain id be that of a stored task.
    After [toggleTaskStatus] the server holds the task with the opposite
    status and everything else as it was, whether the toggle fulfilled
    or not.  If it fulfilled, the cache holds the list of the server; if
    it rejected (the validation of the response failed), the cache is
    back to the list from before the toggle. *)
Theorem toggle_end_to_end (id : string) (task : Task) (st : @State Store) :
  plain_id id → cache st = Some (tasks (world st)) → NoDup (ids (world st)) →
  Service.getTaskById id (world st) = Some task →
  let s := world st in
  let flipped := mkTask (task_id task) (title task) (description task)
                        (opposite (status task)) in
  let toggled := toggleTaskStatus server_fetch validateTask id st in
  world toggled.2 =
    (Service.updateTaskStatus id (mkUpdateTask (opposite (status task))) s).2 ∧
  Service.getTaskById id (world toggled.2) = Some flipped ∧
  (∀ j, tasks s !! j ≠ Some task → tasks (world toggled.2) !! j = tasks s !! j) ∧
  (toggled.1 = Fulfilled () → cache toggled.2 = Some (tasks (world toggled.2))) ∧
  (∀ e, toggled.1 = Rejected e → cache toggled.2 = cache st).
Proof.
  intros Hid Hcache Hnd Hget s flipped toggled.
  unfold Service.getTaskById in Hget. fold s in Hget, Hcache, Hnd.
  destruct (findIndex id (tasks s)) as [[i t]|] eqn:Hfind; [|done].
  injection Hget as ->.
  set (u := mkUpdateTask (opposite (status task))).
  set (m := updateTaskStatusMutation server_fetch validateTask).
  assert (Htoggle : toggled =
            bind (mutateAsync m (id, opposite (status task))) (λ _, ret ()) st).
  { unfold toggled, toggleTaskStatus at 1. unfold bind at 1. cbn [getQueryData].
    rewrite Hcache. cbn [default from_option Datatypes.id].
    unfold findIndex in Hfind. rewrite Hfind.
    cbn [fmap option_fmap option_map snd]. by destruct (status task). }
  destruct (optimistic_hook_settled m _ (id, opposite (status task)) st
              (status_hook server_fetch validateTask))
    as (st1 & Hc1 & Hw1 & Hres & Hworld & Hok & Hko).
  change (mutationFn m (id, opposite (status task)))
    with (api_updateTaskStatus server_fetch validateTask id
            (opposite (status task))) in *.
  assert (Hattempt : world (attempt mutation_retry
              (api_updateTaskStatus server_fetch validateTask id
                 (opposite (status task))) st1).2 =
            (Service.updateTaskStatus id u s).2).
  { rewrite (attempt_world _ (λ w, (Service.updateTaskStatus id u w).2)).
    - by rewrite Hw1.
    - intros st0. by rewrite api_updateTaskStatus_server.
    - intros w. apply status_again. }
  assert (Hw : world toggled.2 = (Service.updateTaskStatus id u s).2).
  { rewrite Htoggle. unfold bind, ret.
    destruct (mutateAsync m (id, opposite (status task)) st) as [[a|e] st'];
      cbn [fst snd] in *; congruence. }
  pose proof Hfind as (Hi & Htid & _)%findIndex_Some.
  assert (Hs' : (Service.updateTaskStatus id u s).2 =
            mkStore (<[i := flipped]> (tasks s)) (nextId s))
    by (unfold Service.updateTaskStatus; by rewrite Hfind).
  split_and!.
  - exact Hw.
  - rewrite Hw, Hs'. unfold Service.getTaskById. cbn [tasks].
    erewrite EndToEnd.findIndex_insert; [done|exact Hfind|done].
  - intros j Hj. rewrite Hw, Hs'. cbn [tasks].
    apply list_lookup_insert_ne. intros <-. by rewrite Hi in Hj.
  - rewrite Htoggle. unfold bind, ret. intros Hfulfilled.
    destruct (mutateAsync m (id, opposite (status task)) st) as [[a|e] st']
      eqn:Hm; cbn [fst snd] in *; [|done].
    rewrite (Hok a) by done. rewrite Hcache, Hworld, Hattempt. cbn.
    by rewrite predict_status.
  - rewrite Htoggle. unfold bind, ret. intros e Hrejected.
    destruct (mutateAsync m (id, opposite (status task)) st) as [[a|e'] st']
      eqn:Hm; cbn [fst snd] in *; [done|].
    by apply (Hko e').
Qed.

End Toggle.

(** The toggle of the scenario. *)
Lemma toggle_end_to_end_witness :
  let st := Scenario.cached (tasks initial) initial in
  let toggled := toggleTaskStatus server_fetch Scenario.accept_task "1" st in
  Service.getTaskById "1" (world toggled.2) =
    Some (mkTask "1" "Sample Task" "This is a sample task" Done) ∧
  cache toggled.2 = Some (tasks (world toggled.2)).
Proof.
  intros st toggled.
  destruct (toggle_end_to_end Scenario.accept_task "1" Scenario.sample st)
    as (_ & Hget & _ & Hcache & _);
    [split; [done|reflexivity]|reflexivity|compute_done|reflexivity|].
  split; [exact Hget|]. apply Hcache. reflexivity.
Defined.

Section Refetch.

Variable validateTask : option ResBody → string + Task.
Variable typeError : option ResBody → string.

Lemma validate_each_state l (st : @State Store) :
  (validate_each validateTask l st).2 = st.
Proof.
  induction l as [|t l IH]; [done|]. cbn [validate_each]. unfold bind at 1.
  rewrite validateTaskData_result.
  destruct (validateTask (Some (OneTask t))); [done|].
  unfold bind. destruct (validate_each validateTask l st) as [[r|e] st'];
    by simpl in *.
Qed.

Lemma validate_each_accepts l (st : @State Store) :
  (∀ t, t ∈ l → validateTask (Some (OneTask t)) = inr t) →
  validate_each validateTask l st = (Fulfilled l, st).
Proof.
  induction l as [|t l IH]; intros Hall; [done|].
  cbn [validate_each]. unfold bind at 1. rewrite validateTaskData_result.
  rewrite Hall by apply list_elem_of_here. unfold bind.
  rewrite IH; [done|]. intros u Hu. apply Hall. by apply list_elem_of_further.
Qed.

Lemma api_getTasks_server (st : @State Store) :
  api_getTasks server_fetch validateTask typeError st =
  ((validate_each validateTask (tasks (world st)) st).1,
   mkState (cache st) (trace st ++ [Sent getTasks_request]) (world st)).
Proof.
  unfold api_getTasks, bind. rewrite makeRequest_server.
  unfold getTasks_request at 1 3. rewrite app_tasks_route by done.
  cbn [answer Controller.getAllTasks fst snd res_body Service.getAllTasks].
  pose proof (validate_each_state (tasks (world st))) as Hstate.
  assert (Hsame : ∀ st1 st2 : @State Store,
            (validate_each validateTask (tasks (world st)) st1).1 =
            (validate_each validateTask (tasks (world st)) st2).1).
  { induction (tasks (world st)) as [|t l IH]; intros st1 st2; [done|].
    cbn [validate_each]. unfold bind at 1 3. rewrite !validateTaskData_result.
    destruct (validateTask (Some (OneTask t))); [done|].
    unfold bind. specialize (IH (validate_each_state l) st1 st2).
    pose proof (validate_each_state l st1). pose proof (validate_each_state l st2).
    destruct (validate_each validateTask l st1) as [[r1|e1] st1'],
             (validate_each validateTask l st2) as [[r2|e2] st2'];
      simpl in *; congruence. }
  rewrite (surjective_pairing (validate_each _ _ _)), Hstate.
  f_equal. apply Hsame.
Qed.

(** X19. A refetch reconciles the cache with the server.  Whatever the
    cache holds, when the validation of the client accepts the stored
    tasks as they are, one fetch of the tasks query sends one GET and
    leaves in the cache exactly the list of the server; the store is not
    changed.  A fetch that rejects leaves both the cached data and the
    store as they were. *)
Theorem refetch_reconciles (st : @State Store) :
  ((∀ t, t ∈ tasks (world st) → validateTask (Some (OneTask t)) = inr t) →
     fetchTasks server_fetch validateTask typeError st =
       (Fulfilled (),
        mkState (Some (tasks (world st))) (trace st ++ [Sent getTasks_request])
                (world st))) ∧
  (∀ e st', fetchTasks server_fetch validateTask typeError st = (Rejected e, st') →
     cache st' = cache st ∧ world st' = world st).
Proof.
  split.
  - intros Hall. unfold fetchTasks, tasks_query_retry. cbn [attempt].
    rewrite api_getTasks_server, validate_each_accepts by done. done.
  - intros e st'. unfold fetchTasks, tasks_query_retry. cbn [attempt].
    rewrite api_getTasks_server.
    destruct (validate_each validateTask (tasks (world st)) st).1 as [l|e1];
      [done|].
    rewrite api_getTasks_server. cbn [world cache].
    destruct (validate_each validateTask (tasks (world st)) _).1 as [l|e2];
      [done|].
    by intros [= _ <-].
Qed.

End Refetch.

(** A refetch into an empty cache, after a create on the server. *)
Lemma refetch_reconciles_witness :
  let s := (Service.createTask (mkCreateTask "Buy milk" "2%" Pending) initial).2 in
  cache (fetchTasks server_fetch Scenario.accept_task (λ _, "not an array")
           (mkState None [] s)).2 =
    Some [Scenario.sample; mkTask "2" "Buy milk" "2%" Pending].
Proof.
  intros s.
  destruct (refetch_reconciles Scenario.accept_task (λ _, "not an array")
              (mkState None [] s)) as [Hok _].
  rewrite Hok; [reflexivity|].
  intros t Ht. cbn in Ht.
  apply elem_of_cons in Ht as [->|Ht]; [reflexivity|].
  apply list_elem_of_singleton in Ht as ->. reflexivity.
Defined.

Section SaveShown.

Variable validateTask : option ResBody → string + Task.
Variable trim : string → string.
Variable validateUpdateTask : UpdateTaskData → option UpdateTaskData.

(** X20. A saved task keeps showing done.  Let the cache hold the list
    of a store reached from the initial store, and let a stored task be
    done.  After [handleSave] with a title and a description and no
    status, the server holds the task as pending, while the cache still
    holds a task with that id whose status is done, whether the save
    fulfilled (the optimistic update keeps the cached status) or
    rejected (the rollback restores it): cache and server differ until
    the next refetch. *)
Theorem saved_task_shows_done
    (ops : list Op) (i : nat) (stored task : Task) (t d : string)
    (editTitle editDescription : string) (st : @State Store) :
  let s := run initial ops in
  tasks s !! i = Some stored → status stored = Done → t ≠ "" → d ≠ "" →
  task_id task = task_id stored → world st = s → cache st = Some (tasks s) →
  validateUpdateTask (edited trim editTitle editDescription) =
    Some (mkUpdateTaskData (Some t) (Some d) None) →
  let st' := handleSave server_fetch validateTask trim validateUpdateTask
               task editTitle editDescription st in
  tasks (world st') !! i = Some (mkTask (task_id stored) t d Pending) ∧
  ∃ l shown, cache st' = Some l ∧ l !! i = Some shown ∧
    task_id shown = task_id stored ∧ status shown = Done.
Proof.
  intros s Hi Hdone Ht Hd Htask Hworld Hcache Hvalid st'.
  destruct (run_invariant ops initial) as [Hnd _]; [apply initial_invariant..|].
  fold s in Hnd.
  assert (Hplain : plain_id (task_id stored)).
  { apply (reachable_plain ops). fold s. unfold ids.
    apply list_elem_of_fmap. exists stored. split; [done|].
    by eapply list_elem_of_lookup_2. }
  assert (Hfind : findIndex (task_id stored) (tasks s) = Some (i, stored))
    by (by apply findIndex_NoDup).
  set (u := mkUpdateTaskData (Some t) (Some d) None).
  assert (Hst' : st' = (mutateAsync (updateTaskMutation server_fetch validateTask)
                          (task_id stored, u) st).2).
  { unfold st', handleSave. by rewrite Hvalid, Htask. }
  destruct (optimistic_hook_settled
              (updateTaskMutation server_fetch validateTask) _
              (task_id stored, u) st (update_hook server_fetch validateTask))
    as (st1 & Hc1 & Hw1 & _ & Hw & Hok & Hko).
  change (mutationFn (updateTaskMutation server_fetch validateTask)
            (task_id stored, u))
    with (api_updateTask server_fetch validateTask (task_id stored) u) in *.
  subst u. split.
  - rewrite Hst', Hw.
    rewrite (EndToEnd.put_attempt validateTask (task_id stored) t d i stored st1);
      rewrite ?Hw1, ?Hworld; try done.
    cbn [tasks]. apply list_lookup_insert_eq. by eapply lookup_lt_Some.
  - rewrite Hst'.
    destruct (attempt mutation_retry
                (api_updateTask server_fetch validateTask (task_id stored) _) st1).1
      as [a|e] eqn:Hres.
    + rewrite (Hok a) by done. rewrite Hcache. cbn.
      eexists _, _. split; [done|]. rewrite list_lookup_fmap, Hi. cbn.
      split; [done|]. unfold apply_updates. rewrite decide_True by done.
      by split.
    + rewrite (Hko e) by done. rewrite Hcache. by exists (tasks s), stored.
Qed.

End SaveShown.

(** The save of the sample task after it was set to done. *)
Lemma saved_task_shows_done_witness :
  let s := run initial [UpdateStatus "1" (mkUpdateTask Done)] in
  let shown := mkTask "1" "Sample Task" "This is a sample task" Done in
  let st' := handleSave server_fetch Scenario.accept_task
               Scenario.trim_spaces Scenario.accept_update
               shown "Sample" "edited" (Scenario.cached [shown] s) in
  tasks (world st') !! 0%nat = Some (mkTask "1" "Sample" "edited" Pending) ∧
  ∃ l cached, cache st' = Some l ∧ l !! 0%nat = Some cached ∧
    task_id cached = "1" ∧ status cached = Done.
Proof.
  intros s shown st'.
  apply (saved_task_shows_done Scenario.accept_task Scenario.trim_spaces
           Scenario.accept_update [UpdateStatus "1" (mkUpdateTask Done)]
           0 shown shown "Sample" "edited" "Sample" "edited"
           (Scenario.cached [shown] s)); try reflexivity; done.
Defined.

End WireLaws.
